(** * Duel Masters match server: turn engine and card catalog

    A shallow embedding of [server/src/game/match.ts] (module [Server]) and of
    the card factories of [game/cards/dm01/living_dead.go] (module [Dm01]),
    with the properties of the match / turn / phase state machine proved
    about them. *)

From Stdlib Require Import String List ZArith QArith Lia Bool.
From stdpp Require Import base tactics option list strings.

Import ListNotations.
Local Open Scope string_scope.
Local Open Scope list_scope.

Module Server.

(** ** Data model *)

(** [Phase] ("./phase"): the values [match.ts] refers to. *)
Inductive Phase : Type :=
| IDLE
| CHOOSE_DECK
| BEGIN_TURN_STEP
| UNTAP_STEP
| START_TURN_STEP
| DRAW_STEP
| CHARGE_STEP
| MAIN_STEP.

(** [Container] ("./cards/types"): [match.ts] names [Container.HAND]; the
    other values are the zone arrays of [IPlayer] and its deck. *)
Inductive Container : Type :=
| DECK
| HAND
| SHIELDZONE
| MANAZONE
| GRAVEYARD
| BATTLEZONE
| HIDDENZONE.

(** A reference to a player object.  Every [IPlayer] built by [addPlayer] is
    stored in [match.player1] or [match.player2] of the match it joined, so a
    reference is the slot it occupies; [player.match] is the match that holds
    the slot. *)
Inductive Slot : Type := P1 | P2.

(** A [WebSocket] connection, by identity. *)
Definition Client : Type := nat.

#[global] Instance Phase_eq_dec : EqDecision Phase.
Proof. solve_decision. Defined.
#[global] Instance Container_eq_dec : EqDecision Container.
Proof. solve_decision. Defined.
#[global] Instance Slot_eq_dec : EqDecision Slot.
Proof. solve_decision. Defined.

Record IUser : Type := { uid : string }.

(** A stored deck ("../models/deck"), with the fields selected by
    [addPlayer]: [uid name cards standard public]. *)
Record IDeck : Type := {
  deck_uid : string;
  deck_name : string;
  cards : list string;
  standard : bool;
  public : bool
}.

(** [ICard] ("./cards/types"): the fields [match.ts] assigns ([player],
    [virtualId], [tapped]), the template id, and the two fields the turn
    effects work on. *)
Record ICard : Type := {
  cardId : string;
  player : option Slot;
  virtualId : string;
  tapped : bool;
  summoningSickness : bool;
  zone : Container
}.

#[global] Instance ICard_eq_dec : EqDecision ICard.
Proof. solve_decision. Defined.

(** [IPlayer]: the object literal of [addPlayer], with the optional [deck].
    The back reference [match] is implicit (see [Slot]). *)
Record IPlayer : Type := {
  user : IUser;
  client : Client;
  decks : list IDeck;
  deck : option (list ICard);
  hand : list ICard;
  shieldzone : list ICard;
  manazone : list ICard;
  graveyard : list ICard;
  battlezone : list ICard;
  hiddenzone : list ICard
}.

Record IMatch : Type := {
  id : string;
  inviteId : string;
  name : string;
  description : string;
  phase : Phase;
  player1 : option IPlayer;
  player2 : option IPlayer;
  playerTurn : option Slot
}.

(** *** Field assignments *)

Definition set_player (s : option Slot) (c : ICard) : ICard :=
  {| cardId := cardId c; player := s; virtualId := virtualId c;
     tapped := tapped c; summoningSickness := summoningSickness c;
     zone := zone c |}.

Definition set_virtualId (v : string) (c : ICard) : ICard :=
  {| cardId := cardId c; player := player c; virtualId := v;
     tapped := tapped c; summoningSickness := summoningSickness c;
     zone := zone c |}.

Definition set_tapped (b : bool) (c : ICard) : ICard :=
  {| cardId := cardId c; player := player c; virtualId := virtualId c;
     tapped := b; summoningSickness := summoningSickness c;
     zone := zone c |}.

Definition set_summoningSickness (b : bool) (c : ICard) : ICard :=
  {| cardId := cardId c; player := player c; virtualId := virtualId c;
     tapped := tapped c; summoningSickness := b; zone := zone c |}.

Definition set_zone (z : Container) (c : ICard) : ICard :=
  {| cardId := cardId c; player := player c; virtualId := virtualId c;
     tapped := tapped c; summoningSickness := summoningSickness c;
     zone := z |}.

Definition set_deck (d : option (list ICard)) (p : IPlayer) : IPlayer :=
  {| user := user p; client := client p; decks := decks p; deck := d;
     hand := hand p; shieldzone := shieldzone p; manazone := manazone p;
     graveyard := graveyard p; battlezone := battlezone p;
     hiddenzone := hiddenzone p |}.

Definition set_hand (l : list ICard) (p : IPlayer) : IPlayer :=
  {| user := user p; client := client p; decks := decks p; deck := deck p;
     hand := l; shieldzone := shieldzone p; manazone := manazone p;
     graveyard := graveyard p; battlezone := battlezone p;
     hiddenzone := hiddenzone p |}.

Definition set_shieldzone (l : list ICard) (p : IPlayer) : IPlayer :=
  {| user := user p; client := client p; decks := decks p; deck := deck p;
     hand := hand p; shieldzone := l; manazone := manazone p;
     graveyard := graveyard p; battlezone := battlezone p;
     hiddenzone := hiddenzone p |}.

Definition set_manazone (l : list ICard) (p : IPlayer) : IPlayer :=
  {| user := user p; client := client p; decks := decks p; deck := deck p;
     hand := hand p; shieldzone := shieldzone p; manazone := l;
     graveyard := graveyard p; battlezone := battlezone p;
     hiddenzone := hiddenzone p |}.

Definition set_graveyard (l : list ICard) (p : IPlayer) : IPlayer :=
  {| user := user p; client := client p; decks := decks p; deck := deck p;
     hand := hand p; shieldzone := shieldzone p; manazone := manazone p;
     graveyard := l; battlezone := battlezone p;
     hiddenzone := hiddenzone p |}.

Definition set_battlezone (l : list ICard) (p : IPlayer) : IPlayer :=
  {| user := user p; client := client p; decks := decks p; deck := deck p;
     hand := hand p; shieldzone := shieldzone p; manazone := manazone p;
     graveyard := graveyard p; battlezone := l;
     hiddenzone := hiddenzone p |}.

Definition set_hiddenzone (l : list ICard) (p : IPlayer) : IPlayer :=
  {| user := user p; client := client p; decks := decks p; deck := deck p;
     hand := hand p; shieldzone := shieldzone p; manazone := manazone p;
     graveyard := graveyard p; battlezone := battlezone p;
     hiddenzone := l |}.

Definition set_phase (ph : Phase) (m : IMatch) : IMatch :=
  {| id := id m; inviteId := inviteId m; name := name m;
     description := description m; phase := ph; player1 := player1 m;
     player2 := player2 m; playerTurn := playerTurn m |}.

Definition set_player1 (p : option IPlayer) (m : IMatch) : IMatch :=
  {| id := id m; inviteId := inviteId m; name := name m;
     description := description m; phase := phase m; player1 := p;
     player2 := player2 m; playerTurn := playerTurn m |}.

Definition set_player2 (p : option IPlayer) (m : IMatch) : IMatch :=
  {| id := id m; inviteId := inviteId m; name := name m;
     description := description m; phase := phase m; player1 := player1 m;
     player2 := p; playerTurn := playerTurn m |}.

Definition set_playerTurn (s : option Slot) (m : IMatch) : IMatch :=
  {| id := id m; inviteId := inviteId m; name := name m;
     description := description m; phase := phase m; player1 := player1 m;
     player2 := player2 m; playerTurn := s |}.

(** Dereferencing and updating the player object behind a reference. *)
Definition getPlayer (s : Slot) (m : IMatch) : option IPlayer :=
  match s with P1 => player1 m | P2 => player2 m end.

Definition putPlayer (s : Slot) (p : IPlayer) (m : IMatch) : IMatch :=
  match s with
  | P1 => set_player1 (Some p) m
  | P2 => set_player2 (Some p) m
  end.

(** The array behind a container of a player; the deck of a player who has
    none yet holds no card. *)
Definition zoneOf (z : Container) (p : IPlayer) : list ICard :=
  match z with
  | DECK => default [] (deck p)
  | HAND => hand p
  | SHIELDZONE => shieldzone p
  | MANAZONE => manazone p
  | GRAVEYARD => graveyard p
  | BATTLEZONE => battlezone p
  | HIDDENZONE => hiddenzone p
  end.

Definition setZone (z : Container) (l : list ICard) (p : IPlayer) : IPlayer :=
  match z with
  | DECK => set_deck (Some l) p
  | HAND => set_hand l p
  | SHIELDZONE => set_shieldzone l p
  | MANAZONE => set_manazone l p
  | GRAVEYARD => set_graveyard l p
  | BATTLEZONE => set_battlezone l p
  | HIDDENZONE => set_hiddenzone l p
  end.

(** ** What the server sends and the calls it makes on cards *)

Inductive Event : Type :=
| EvSendError (c : Client) (msg : string)
| EvSendWarning (c : Client) (msg : string)
| EvSendChooseDeck (c : Client) (ds : list IDeck)
| EvAttach (c : Client) (s : Slot)
| EvSetPhase (ph : Phase)
| EvResolveSummoningSickness (card : ICard)
| EvUntap (card : ICard)
| EvStateUpdate (cs : list Client).

(** ** Computations: state, messages and exceptions

    A call either returns or throws; in both cases the mutations made so far
    stay, and the messages sent so far have been sent. *)

Inductive Outcome (A : Type) : Type :=
| Returned (a : A)
| Thrown (err : string).
Arguments Returned {A} a.
Arguments Thrown {A} err.

Definition Fx (S A : Type) : Type := S -> Outcome A * S * list Event.

Definition ret {S A : Type} (a : A) : Fx S A :=
  fun s => (Returned a, s, []).

Definition bind {S A B : Type} (c : Fx S A) (k : A -> Fx S B) : Fx S B :=
  fun s =>
    match c s with
    | (Returned a, s1, l1) =>
        match k a s1 with
        | (o, s2, l2) => (o, s2, l1 ++ l2)
        end
    | (Thrown e, s1, l1) => (Thrown e, s1, l1)
    end.

Definition throw {S A : Type} (e : string) : Fx S A :=
  fun s => (Thrown e, s, []).

Definition get {S : Type} : Fx S S :=
  fun s => (Returned s, s, []).

Definition modify {S : Type} (f : S -> S) : Fx S unit :=
  fun s => (Returned tt, f s, []).

Definition emit {S : Type} (es : list Event) : Fx S unit :=
  fun s => (Returned tt, s, es).

(** Reading a property of [undefined] throws a [TypeError]. *)
Definition defined {S A : Type} (o : option A) : Fx S A :=
  match o with
  | Some a => ret a
  | None => throw "TypeError"
  end.

Declare Scope fx_scope.
Delimit Scope fx_scope with fx.
Notation "'let*' x := c 'in' k" := (bind c (fun x => k))
  (at level 10, x name, c at level 100, k at level 200) : fx_scope.
Notation "c >> k" := (bind c (fun _ => k))
  (at level 100, k at level 200, right associativity) : fx_scope.
Local Open Scope fx_scope.

Definition outcome {S A : Type} (r : Outcome A * S * list Event) : Outcome A :=
  fst (fst r).
Definition state {S A : Type} (r : Outcome A * S * list Event) : S :=
  snd (fst r).
Definition sent {S A : Type} (r : Outcome A * S * list Event) : list Event :=
  snd r.

(** ** Effects ("./effects")

    The effect functions are imported by [match.ts]; their bodies are part of
    the effects module. *)

(** Modelled from the spec: [setPhaseFx] is missing from the sources; it
    makes the given phase "the current Phase" of the match (section 3), and
    the change is recorded as an event. *)
Definition setPhaseFx (ph : Phase) : Fx IMatch unit :=
  modify (set_phase ph) >> emit [EvSetPhase ph].

(** An effect applied to one card object: the card after it, and what it
    reports. *)
Definition CardFx : Type := ICard -> ICard * list Event.

(** Modelled from the spec: [resolveSummoningSicknessFx] is missing from the
    sources; BeginTurn "clears the flag" of the creature (section 4.5). *)
Definition resolveSummoningSicknessFx : CardFx :=
  fun c => (set_summoningSickness false c, [EvResolveSummoningSickness c]).

(** Modelled from the spec: [untapFx] is missing from the sources; Untap
    "untap[s] every card" it is called on (section 4.5). *)
Definition untapFx : CardFx :=
  fun c => (set_tapped false c, [EvUntap c]).

(** Modelled from the spec: [stateUpdateFx] is missing from the sources; it
    "broadcast[s] a state snapshot" to the players passed (section 4.5),
    without touching the match. *)
Definition stateUpdateFx (ps : list (option IPlayer)) : Fx IMatch unit :=
  emit [EvStateUpdate (client <$> omap (fun p => p) ps)].

(** Modelled from the spec: [drawCardsFx] is missing from the sources; it
    hands back the [n] cards on top of the deck of the player.  It does not
    take them out: moving a card is the work of [moveCardToFx], "the only
    path by which a card changes location" (section 4.3). *)
Definition drawCardsFx (s : Slot) (n : nat) : Fx IMatch (list ICard) :=
  let* m := get in
  let* p := defined (getPlayer s m) in
  ret (take n (zoneOf DECK p)).

Definition containers : list Container :=
  [DECK; HAND; SHIELDZONE; MANAZONE; GRAVEYARD; BATTLEZONE; HIDDENZONE].

(** The container of [p] that holds the card. *)
Definition holder (c : ICard) (p : IPlayer) : option Container :=
  List.find (fun z => bool_decide (c ∈ zoneOf z p)) containers.

(** Taking one object out of an array. *)
Fixpoint removeCard (c : ICard) (l : list ICard) : list ICard :=
  match l with
  | [] => []
  | x :: l' => if decide (x = c) then l' else x :: removeCard c l'
  end.

(** Modelled from the spec: [moveCardToFx] is missing from the sources; the
    zone move of section 4.3: "remove from [fromZone]'s container, append to
    [toZone]'s container ..., update [instance.currentZone]", within the
    zones of the owner of the card.  A card that no zone of its owner holds
    is not moved ("produces no mutation"). *)
Definition moveCardToFx (c : ICard) (to : Container) : Fx IMatch unit :=
  let* m := get in
  match player c with
  | None => ret tt
  | Some s =>
      match getPlayer s m with
      | None => ret tt
      | Some p =>
          match holder c p with
          | None => ret tt
          | Some from =>
              let p1 := setZone from (removeCard c (zoneOf from p)) p in
              let p2 := setZone to (zoneOf to p1 ++ [set_zone to c]) p1 in
              modify (putPlayer s p2)
          end
      end
  end.

(** ** The turn engine

    [match.ts] declares the steps from [beginTurn] down to [mainStep], each
    calling the next; here the callee comes first. *)

(** [for (let card of match.playerTurn.<zone>) { body(card) }] *)
Fixpoint forOf (body : CardFx) (cs : list ICard) : list ICard * list Event :=
  match cs with
  | [] => ([], [])
  | c :: cs' =>
      let '(c', es) := body c in
      let '(cs'', es') := forOf body cs' in
      (c' :: cs'', es ++ es')
  end.

Definition forOfZone (z : Container) (body : CardFx) : Fx IMatch unit :=
  let* m := get in
  let* s := defined (playerTurn m) in
  let* p := defined (getPlayer s m) in
  match forOf body (zoneOf z p) with
  | (cs, es) => modify (putPlayer s (setZone z cs p)) >> emit es
  end.

(** [before] and [after]: the registration of a listener for an event, with
    an empty body; the listener is dropped. *)
Definition before {Listener : Type} (eventName : string) (listener : Listener)
  : Fx IMatch unit :=
  ret tt.

Definition after {Listener : Type} (eventName : string) (listener : Listener)
  : Fx IMatch unit :=
  ret tt.

(** Step 6: Main step. *)
Definition mainStep : Fx IMatch unit :=
  setPhaseFx MAIN_STEP.

(** Step 5: Charge step.  The transition to the next step is left to the
    player. *)
Definition chargeStep : Fx IMatch unit :=
  setPhaseFx CHARGE_STEP.

(** Step 4: Draw step. *)
Definition drawStep : Fx IMatch unit :=
  setPhaseFx DRAW_STEP >>
  let* m := get in
  let* s := defined (playerTurn m) in
  let* p := defined (getPlayer s m) in
  let* d := defined (deck p) in
  if (length d <? 1)%nat then
    (* TODO: Player lost *)
    ret tt
  else
    let* card := drawCardsFx s 1 in
    let* card0 := defined (head card) in
    moveCardToFx card0 HAND >>
    chargeStep.

(** Step 3: Start of turn step. *)
Definition startTurnStep : Fx IMatch unit :=
  setPhaseFx START_TURN_STEP >>
  (* TODO: dispatch turn-start event *)
  drawStep.

(** Step 2: Untap step. *)
Definition untapStep : Fx IMatch unit :=
  setPhaseFx UNTAP_STEP >>
  forOfZone BATTLEZONE untapFx >>
  forOfZone MANAZONE untapFx >>
  (let* m := get in stateUpdateFx [player1 m; player2 m]) >>
  startTurnStep.

(** Step 1: Begin your turn. *)
Definition beginTurn : Fx IMatch unit :=
  setPhaseFx BEGIN_TURN_STEP >>
  forOfZone BATTLEZONE resolveSummoningSicknessFx >>
  untapStep.

(** ** Matches ("match.ts") *)

(** JavaScript truthiness of an optional object: [undefined] is falsy, every
    object (an empty array too) is truthy. *)
Definition truthy {A : Type} (o : option A) : bool :=
  match o with Some _ => true | None => false end.

(** What a call draws from [shortid] (the [n]-th identifier it generates)
    and from [Math.random()]. *)
Record Entropy : Type := {
  shortid : nat -> string;
  random : Q
}.

(** [Math.random() > 0.5] *)
Definition gt_half (r : Q) : bool := negb (Qle_bool r (1 # 2)).

Definition sendError {S : Type} (c : Client) (msg : string) : Fx S unit :=
  emit [EvSendError c msg].

Definition sendWarning {S : Type} (c : Client) (msg : string) : Fx S unit :=
  emit [EvSendWarning c msg].

Definition sendChooseDeck {S : Type} (c : Client) (ds : list IDeck) : Fx S unit :=
  emit [EvSendChooseDeck c ds].

(** [let matches: Array<IMatch> = []]: the state of the module.  A reference
    to a match object is its index in the array. *)
Abbreviation Matches := (list IMatch).

(** Running a computation on the match object at index [i]. *)
Definition atMatch {A : Type} (i : nat) (c : Fx IMatch A) : Fx Matches A :=
  fun ms =>
    match ms !! i with
    | None => (Thrown "TypeError", ms, [])
    | Some m =>
        match c m with
        | (o, m', l) => (o, <[i := m']> ms, l)
        end
    end.

Definition createMatch (e : Entropy) (host name description : string)
  : Fx Matches IMatch :=
  let m := {| id := shortid e 0; inviteId := shortid e 1; name := name;
              description := description; phase := IDLE; player1 := None;
              player2 := None; playerTurn := None |} in
  modify (fun ms => ms ++ [m]) >>
  ret m.

(** [matches.find(x => x.id === id)]: the first match with that id, with the
    index that stands for the reference. *)
Definition getMatch (i : string) (ms : Matches) : option (nat * IMatch) :=
  list_find (fun x => id x = i) ms.

Section Engine.

(** The collaborators of [match.ts]: the card catalog ([getCard] of
    "./cards/repository", which knows the card ids of the stored decks, and
    the [setup] method of a card, taken to initialise the card it is called
    on), the deck set-up of "./player" and the deck query of
    "../models/deck" (the decks owned by the uid of the user or standard). *)
Variable getCard : string -> ICard.
Variable cardSetup : ICard -> ICard.
Variable setupPlayer : IPlayer -> IPlayer.
Variable findDecks : string -> list IDeck.

Definition tryStartMatch (random : Q) : Fx IMatch bool :=
  let* m := get in
  if negb (truthy (player1 m)) || negb (truthy (player1 m ≫= deck)) then
    ret false
  else if negb (truthy (player2 m)) || negb (truthy (player2 m ≫= deck)) then
    ret false
  else
    (let* p1 := defined (player1 m) in modify (putPlayer P1 (setupPlayer p1))) >>
    (let* p2 := defined (player2 m) in modify (putPlayer P2 (setupPlayer p2))) >>
    modify (set_playerTurn (Some (if gt_half random then P1 else P2))) >>
    (let* m := get in stateUpdateFx [player1 m; player2 m]) >>
    beginTurn >>
    ret true.

Definition createDeck (cardsIds : list string) : list ICard :=
  getCard <$> cardsIds.

(** [player] is the reference to the player object; the computation runs on
    [player.match]. *)
Definition playerChooseDeck (e : Entropy) (player : Slot) (deckId : string)
  : Fx IMatch unit :=
  let* m := get in
  let* p := defined (getPlayer player m) in
  if bool_decide (phase m ≠ CHOOSE_DECK) then
    ret tt
  else if truthy (deck p) then
    ret tt
  else
    match List.find (fun x => bool_decide (deck_uid x = deckId)) (decks p) with
    | None =>
        sendWarning (client p) "You do not have the rights to use that deck"
    | Some d =>
        let init i card :=
          cardSetup
            (set_tapped false
               (set_virtualId (shortid e i)
                  (set_player (Some player) card))) in
        modify (putPlayer player
                  (set_deck (Some (imap init (createDeck (cards d)))) p)) >>
        tryStartMatch (random e) >>
        ret tt
    end.

(** [await Deck.find()...] is the call of [findDecks].  The source suspends
    [addPlayer] there, between its guards and the seating of the player,
    and checks nothing again when the answer comes; here the answer comes at
    once, which is [addPlayer] when no other call is served before the
    answer.  The two halves are [addPlayerGuards] and [addPlayerSeat]
    below. *)
Definition addPlayer (client : Client) (user : IUser)
    (matchId inviteId : string) : Fx Matches unit :=
  let* ms := get in
  match getMatch matchId ms with
  | None => sendError client "Match is no longer available"
  | Some (i, m) =>
      if bool_decide (phase m ≠ IDLE) then
        sendError client "Match is currently in progress"
      else if bool_decide (inviteId ≠ Server.inviteId m) then
        sendError client "Invite id does not match"
      else if truthy (player1 m) && truthy (player2 m) then
        sendError client "Both players have already connected"
      else
        let decks := findDecks (uid user) in
        let player :=
          {| Server.user := user; Server.client := client; decks := decks;
             deck := None; hand := []; shieldzone := []; manazone := [];
             graveyard := []; battlezone := []; hiddenzone := [] |} in
        emit [EvAttach client (if truthy (player1 m) then P2 else P1)] >>
        atMatch i
          (if negb (truthy (player1 m)) then
             modify (set_player1 (Some player))
           else
             modify (set_player2 (Some player)) >>
             modify (set_phase CHOOSE_DECK) >>
             let* m := get in
             let* p1 := defined (player1 m) in
             let* p2 := defined (player2 m) in
             sendChooseDeck (Server.client p1) (Server.decks p1) >>
             sendChooseDeck (Server.client p2) (Server.decks p2))
  end.

(** The match as [tryStartMatch] hands it to [beginTurn]: both players set
    up, and the player to begin chosen. *)
Definition started (random : Q) (p1 p2 : IPlayer) (m : IMatch) : IMatch :=
  set_playerTurn (Some (if gt_half random then P1 else P2))
    (putPlayer P2 (setupPlayer p2) (putPlayer P1 (setupPlayer p1) m)).

(** *** The calls that reach the module from outside *)

Inductive Input : Type :=
| InCreate (host name description : string)
| InJoin (client : Client) (user : IUser) (matchId inviteId : string)
| InChooseDeck (mi : nat) (player : Slot) (deckId : string).

Definition step (e : Entropy) (i : Input) : Fx Matches unit :=
  match i with
  | InCreate h n d => createMatch e h n d >> ret tt
  | InJoin c u mid inv => addPlayer c u mid inv
  | InChooseDeck mi s d => atMatch mi (playerChooseDeck e s d)
  end.

(** A run: the calls in their order of arrival, each with what it draws and
    each served to its end before the next (no call arrives while a join
    awaits its decks; joins that overlap are served by [serveAll] below); a
    call that throws does not stop the later ones. *)
Fixpoint run (calls : list (Entropy * Input)) (ms : Matches)
  : Matches * list Event :=
  match calls with
  | [] => (ms, [])
  | (e, i) :: calls' =>
      let r := step e i ms in
      let r' := run calls' (state r) in
      (fst r', sent r ++ snd r')
  end.

End Engine.

(** ** Reading a result *)

(** The result [r] of the rest of a computation, after the events [l]. *)
Definition prepend {S A : Type} (l : list Event)
    (r : Outcome A * S * list Event) : Outcome A * S * list Event :=
  (outcome r, state r, l ++ sent r).

(** The phases a computation went through: its [setPhaseFx] calls, in
    order. *)
Definition phases (l : list Event) : list Phase :=
  omap (fun e => match e with EvSetPhase ph => Some ph | _ => None end) l.

(** The calls made on card objects, in order. *)
Definition cardEvents (l : list Event) : list Event :=
  List.filter
    (fun e =>
       match e with
       | EvResolveSummoningSickness _ | EvUntap _ => true
       | _ => false
       end) l.

Definition untapped (c : ICard) : Prop := tapped c = false.

(** The active player after the loops of [untapStep] and of [beginTurn]. *)
Definition untapAll (p : IPlayer) : IPlayer :=
  set_manazone (set_tapped false <$> manazone p)
    (set_battlezone (set_tapped false <$> battlezone p) p).

Definition resolveAll (p : IPlayer) : IPlayer :=
  set_battlezone (set_summoningSickness false <$> battlezone p) p.

(** The connections a state update goes to. *)
Definition clientsOf (m : IMatch) : list Client :=
  client <$> omap (fun p => p) [player1 m; player2 m].

(** What [beginTurn] reports before it reaches the draw step, for the active
    player [p] in slot [s]. *)
Definition turnOpening (m : IMatch) (s : Slot) (p : IPlayer) : list Event :=
  [EvSetPhase BEGIN_TURN_STEP] ++
  (EvResolveSummoningSickness <$> battlezone p) ++
  [EvSetPhase UNTAP_STEP] ++
  (EvUntap <$> battlezone (resolveAll p)) ++
  (EvUntap <$> manazone p) ++
  [EvStateUpdate (clientsOf (putPlayer s (untapAll (resolveAll p)) m));
   EvSetPhase START_TURN_STEP].

(** [c] keeps [P] true of the match, whether it returns or throws. *)
Definition preserves {A : Type} (P : IMatch -> Prop) (c : Fx IMatch A) : Prop :=
  forall m, P m -> P (state (c m)).

(** Both players of the match are connected. *)
Definition seated (m : IMatch) : Prop :=
  is_Some (player1 m) /\ is_Some (player2 m).

(** The invariant of a match: outside the pre-game phase both players are
    connected. *)
Definition pregame_until_full (m : IMatch) : Prop :=
  player1 m = None \/ player2 m = None -> phase m = IDLE.

(** ** Collaborators and matches for the examples *)

Definition exampleCard (cid : string) : ICard :=
  {| cardId := cid; player := None; virtualId := ""; tapped := false;
     summoningSickness := true; zone := DECK |}.

(** A deck set-up: the first card becomes a shield, the next two the
    starting hand. *)
Definition exampleSetup (p : IPlayer) : IPlayer :=
  let d := default [] (deck p) in
  set_deck (Some (drop 3 d))
    (set_hand (take 2 (drop 1 d)) (set_shieldzone (take 1 d) p)).

Definition exampleDecks (u : string) : list IDeck :=
  [ {| deck_uid := "d1"; deck_name := "Starter";
       cards := ["c1"; "c2"; "c3"; "c4"; "c5"];
       standard := true; public := true |};
    {| deck_uid := "d0"; deck_name := "Empty"; cards := [];
       standard := true; public := true |} ].

Definition exampleEntropy (r : Q) : Entropy :=
  {| shortid := fun n => String (Ascii.ascii_of_nat (65 + n)) "";
     random := r |}.

Definition exampleJoins (r : Q) : list (Entropy * Input) :=
  [ (exampleEntropy r, InCreate "h" "match" "");
    (exampleEntropy r, InJoin 1%nat {| uid := "u1" |} "A" "B");
    (exampleEntropy r, InJoin 2%nat {| uid := "u2" |} "A" "B") ].

Definition exampleCalls (r : Q) : list (Entropy * Input) :=
  exampleJoins r ++
  [ (exampleEntropy r, InChooseDeck 0 P1 "d1");
    (exampleEntropy r, InChooseDeck 0 P2 "d1") ].

(** The same, with both players choosing the deck without cards. *)
Definition exampleEmptyCalls (r : Q) : list (Entropy * Input) :=
  exampleJoins r ++
  [ (exampleEntropy r, InChooseDeck 0 P1 "d0");
    (exampleEntropy r, InChooseDeck 0 P2 "d0") ].

Definition exampleRun (calls : list (Entropy * Input)) : Matches :=
  fst (run exampleCard (fun c => c) exampleSetup exampleDecks calls []).

Definition examplePlayer (d : option (list ICard)) (bz mz : list ICard)
  : IPlayer :=
  {| user := {| uid := "u1" |}; client := 1%nat; decks := []; deck := d;
     hand := []; shieldzone := []; manazone := mz; graveyard := [];
     battlezone := bz; hiddenzone := [] |}.

Definition exampleCreature (v : string) (t : bool) : ICard :=
  {| cardId := "c1"; player := Some P1; virtualId := v; tapped := t;
     summoningSickness := true; zone := BATTLEZONE |}.

(** A match in its first turn: player 1 is active, with two creatures in the
    battle zone, one card in the mana zone, and the given deck. *)
Definition exampleActive (d : option (list ICard)) : IPlayer :=
  examplePlayer d
    [exampleCreature "x" true; exampleCreature "y" false]
    [set_zone MANAZONE (exampleCreature "z" true)].

Definition exampleTurn (d : option (list ICard)) : IMatch :=
  {| id := "A"; inviteId := "B"; name := "match"; description := "";
     phase := CHOOSE_DECK;
     player1 := Some (exampleActive d);
     player2 := Some (examplePlayer (Some []) [] []);
     playerTurn := Some P1 |}.

Definition exampleDeck : list ICard :=
  [exampleCreature "a" false; exampleCreature "b" false;
   exampleCreature "c" false; exampleCreature "d" false].

(** A match whose two players have both chosen a deck, and one where the
    second player has not. *)
Definition exampleReady : IMatch :=
  {| id := "A"; inviteId := "B"; name := "match"; description := "";
     phase := CHOOSE_DECK;
     player1 := Some (examplePlayer (Some exampleDeck) [] []);
     player2 := Some (examplePlayer (Some exampleDeck) [] []);
     playerTurn := None |}.

Definition exampleWaiting : IMatch :=
  set_player2 (Some (examplePlayer None [] [])) exampleReady.

(** ** Further readings of a match *)

(** The other slot of a match. *)
Definition other (s : Slot) : Slot :=
  match s with P1 => P2 | P2 => P1 end.

(** What [createMatch] gives a match for good. *)
Definition header (m : IMatch) : string * string * string * string :=
  (id m, inviteId m, name m, description m).

(** A match between two calls: before the start no player is to play, and
    the second slot is filled only once the choice of decks is open; after
    it both players are connected, one of them is to play, and the match is
    in the draw step or the charge step. *)
Definition settled (m : IMatch) : Prop :=
  match phase m with
  | IDLE => player2 m = None /\ playerTurn m = None
  | CHOOSE_DECK => seated m /\ playerTurn m = None
  | DRAW_STEP | CHARGE_STEP => seated m /\ is_Some (playerTurn m)
  | _ => False
  end.

(** The match object a call works on, as an index of the array; a call that
    works on none points past the end. *)
Definition target (i : Input) (ms : Matches) : nat :=
  match i with
  | InCreate _ _ _ => length ms
  | InJoin _ _ mid _ =>
      match getMatch mid ms with
      | Some (k, _) => k
      | None => length ms
      end
  | InChooseDeck mi _ _ => mi
  end.

(** The errors sent to clients, in order. *)
Definition errors (l : list Event) : list (Client * string) :=
  omap (fun e => match e with EvSendError c msg => Some (c, msg) | _ => None end) l.

(** The number of [createMatch] calls among the calls. *)
Definition creations (calls : list (Entropy * Input)) : nat :=
  length (List.filter
            (fun c => match snd c with InCreate _ _ _ => true | _ => false end)
            calls).

(** The deck [playerChooseDeck] builds for the player in slot [s] from the
    card ids of a stored deck. *)
Definition dealt (getCard : string -> ICard) (cardSetup : ICard -> ICard)
    (e : Entropy) (s : Slot) (cardsIds : list string) : list ICard :=
  imap (fun i card =>
          cardSetup
            (set_tapped false
               (set_virtualId (shortid e i) (set_player (Some s) card))))
    (createDeck getCard cardsIds).

(** The player object [addPlayer] builds. *)
Definition joining (findDecks : string -> list IDeck) (c : Client) (u : IUser)
  : IPlayer :=
  {| user := u; client := c; decks := findDecks (uid u); deck := None;
     hand := []; shieldzone := []; manazone := []; graveyard := [];
     battlezone := []; hiddenzone := [] |}.

(** ** Replays *)

(** What a call draws from outside [match.ts]: the identifiers and the random
    number, and the answers of the collaborators, which may differ from one
    call to the next ([Deck.find()] reads a database, and the deck set-up of
    "./player" and the [setup] of a card are not in the source). *)
Record Draws : Type := {
  entropy : Entropy;
  cardSetupOf : ICard -> ICard;
  setupOf : IPlayer -> IPlayer;
  findOf : string -> list IDeck
}.

(** A run in which each call comes with its own draws; the calls are served
    one at a time, as in [run]. *)
Fixpoint replay (getCard : string -> ICard) (calls : list (Draws * Input))
    (ms : Matches) : Matches * list Event :=
  match calls with
  | [] => (ms, [])
  | (d, i) :: calls' =>
      let r := step getCard (cardSetupOf d) (setupOf d) (findOf d)
                 (entropy d) i ms in
      let r' := replay getCard calls' (state r) in
      (fst r', sent r ++ snd r')
  end.

(** The draws of a run whose collaborators answer the same at every call. *)
Definition constant (cardSetup : ICard -> ICard)
    (setupPlayer : IPlayer -> IPlayer) (findDecks : string -> list IDeck)
    (c : Entropy * Input) : Draws * Input :=
  ({| entropy := fst c; cardSetupOf := cardSetup; setupOf := setupPlayer;
      findOf := findDecks |}, snd c).



(** ** Joins that overlap *)

(** A call of [addPlayer] suspended at its [await]: its arguments, and the
    reference to the match its guards have found. *)
Record Ticket : Type := {
  t_client : Client;
  t_user : IUser;
  t_matchId : string;
  t_inviteId : string;
  t_match : nat
}.

(** [addPlayer] up to its [await]: the guards. *)
Definition addPlayerGuards (client : Client) (user : IUser)
    (matchId inviteId : string) : Fx Matches (option Ticket) :=
  let* ms := get in
  match getMatch matchId ms with
  | None => sendError client "Match is no longer available" >> ret None
  | Some (i, m) =>
      if bool_decide (phase m ≠ IDLE) then
        sendError client "Match is currently in progress" >> ret None
      else if bool_decide (inviteId ≠ Server.inviteId m) then
        sendError client "Invite id does not match" >> ret None
      else if truthy (player1 m) && truthy (player2 m) then
        sendError client "Both players have already connected" >> ret None
      else
        ret (Some {| t_client := client; t_user := user; t_matchId := matchId;
                     t_inviteId := inviteId; t_match := i |})
  end.

(** [addPlayer] from the answer of [Deck.find()] on: the player object is
    built and seated in the match as it is by then, and no guard is checked
    again.  A player object is designated here by its slot, which is sound
    as long as a seated object is never replaced.  When the answer finds
    both slots taken, the source replaces the second player object while
    its connection, its cards and possibly [playerTurn] still designate the
    old one: that state is outside this embedding, and the result is
    [None]. *)
Definition addPlayerSeat (t : Ticket) (answer : list IDeck) (ms : Matches)
  : option (Outcome unit * Matches * list Event) :=
  match ms !! t_match t with
  | None => None
  | Some m =>
      if truthy (player1 m) && truthy (player2 m) then None
      else
        let player :=
          {| user := t_user t; client := t_client t; decks := answer;
             deck := None; hand := []; shieldzone := []; manazone := [];
             graveyard := []; battlezone := []; hiddenzone := [] |} in
        Some
          ((emit [EvAttach (t_client t) (if truthy (player1 m) then P2 else P1)] >>
            atMatch (t_match t)
              (if negb (truthy (player1 m)) then
                 modify (set_player1 (Some player))
               else
                 modify (set_player2 (Some player)) >>
                 modify (set_phase CHOOSE_DECK) >>
                 let* m := get in
                 let* p1 := defined (player1 m) in
                 let* p2 := defined (player2 m) in
                 sendChooseDeck (client p1) (decks p1) >>
                 sendChooseDeck (client p2) (decks p2))) ms)
  end.

(** A suspended join still designates its match: the match its guards found
    is the one found for its id, and has the invite id it was given. *)
Definition valid (ms : Matches) (t : Ticket) : Prop :=
  exists m,
    getMatch (t_matchId t) ms = Some (t_match t, m) /\
    t_inviteId t = inviteId m.

(** The module with joins in flight: the matches, and the calls of
    [addPlayer] suspended at their [await], oldest first. *)
Record Running : Type := {
  registry : Matches;
  suspended : list Ticket
}.

(** What reaches the module: a call, with what it draws, or the answer of
    [Deck.find()] to the [k]-th suspended join. *)
Inductive Arrival : Type :=
| ACall (d : Draws) (i : Input)
| AAnswer (k : nat) (answer : list IDeck).

(** An arrival is served to its end or, for a join, to its [await] (the
    decks are not asked of [findOf d]: they come with the answer).  [None]:
    there is no such suspended join, or the answer replaces a seated player
    object. *)
Definition serve (getCard : string -> ICard) (a : Arrival) (sv : Running)
  : option (Running * list Event) :=
  match a with
  | ACall d (InJoin c u mid inv) =>
      let r := addPlayerGuards c u mid inv (registry sv) in
      Some ({| registry := state r;
               suspended :=
                 suspended sv ++
                 match outcome r with
                 | Returned (Some t) => [t]
                 | _ => []
                 end |},
            sent r)
  | ACall d i =>
      let r := step getCard (cardSetupOf d) (setupOf d) (findOf d)
                 (entropy d) i (registry sv) in
      Some ({| registry := state r; suspended := suspended sv |}, sent r)
  | AAnswer k answer =>
      match suspended sv !! k with
      | None => None
      | Some t =>
          match addPlayerSeat t answer (registry sv) with
          | None => None
          | Some r =>
              Some ({| registry := state r;
                       suspended := delete k (suspended sv) |},
                    sent r)
          end
      end
  end.

Fixpoint serveAll (getCard : string -> ICard) (arrivals : list Arrival)
    (sv : Running) : option (Running * list Event) :=
  match arrivals with
  | [] => Some (sv, [])
  | a :: arrivals' =>
      match serve getCard a sv with
      | None => None
      | Some (sv1, l1) =>
          match serveAll getCard arrivals' sv1 with
          | None => None
          | Some (sv2, l2) => Some (sv2, l1 ++ l2)
          end
      end
  end.

(** The draws of a join served when its decks are found: a join asks for
    nothing else. *)
Definition answering (answer : list IDeck) : Draws :=
  {| entropy := {| shortid := fun _ => ""; random := 0 |};
     cardSetupOf := fun c => c; setupOf := fun p => p;
     findOf := fun _ => answer |}.

(** The calls, served one at a time, that an arrival amounts to: a join
    that fails its guards is served when it arrives, a join that passes them
    when its decks are found. *)
Definition asCalls (a : Arrival) (sv : Running) : list (Draws * Input) :=
  match a with
  | ACall d (InJoin c u mid inv) =>
      match outcome (addPlayerGuards c u mid inv (registry sv)) with
      | Returned (Some _) => []
      | _ => [(d, InJoin c u mid inv)]
      end
  | ACall d i => [(d, i)]
  | AAnswer k answer =>
      match suspended sv !! k with
      | Some t =>
          [(answering answer,
            InJoin (t_client t) (t_user t) (t_matchId t) (t_inviteId t))]
      | None => []
      end
  end.

Fixpoint serialised (getCard : string -> ICard) (arrivals : list Arrival)
    (sv : Running) : list (Draws * Input) :=
  match arrivals with
  | [] => []
  | a :: arrivals' =>
      asCalls a sv ++
      match serve getCard a sv with
      | Some (sv1, _) => serialised getCard arrivals' sv1
      | None => []
      end
  end.

(** Three joins of the example match that overlap: the guards of each are
    passed before the answer to any of them has come. *)
Definition exampleTickets : list Ticket :=
  [ {| t_client := 1%nat; t_user := {| uid := "u1" |}; t_matchId := "A";
       t_inviteId := "B"; t_match := 0 |};
    {| t_client := 2%nat; t_user := {| uid := "u2" |}; t_matchId := "A";
       t_inviteId := "B"; t_match := 0 |};
    {| t_client := 3%nat; t_user := {| uid := "u3" |}; t_matchId := "A";
       t_inviteId := "B"; t_match := 0 |} ].

(** Two joins of the example match that overlap, the second answered first;
    then both players choose a deck. *)
Definition exampleArrivals (r : Q) : list Arrival :=
  let d := {| entropy := exampleEntropy r; cardSetupOf := fun c => c;
              setupOf := exampleSetup; findOf := exampleDecks |} in
  [ ACall d (InCreate "h" "match" "");
    ACall d (InJoin 1%nat {| uid := "u1" |} "A" "B");
    ACall d (InJoin 2%nat {| uid := "u2" |} "A" "B");
    AAnswer 1 (exampleDecks "u2");
    AAnswer 0 (exampleDecks "u1");
    ACall d (InChooseDeck 0 P1 "d1");
    ACall d (InChooseDeck 0 P2 "d1") ].


(** The example match once both players have joined. *)
Definition exampleChoosing : IMatch :=
  {| id := "A"; inviteId := "B"; name := "match"; description := "";
     phase := CHOOSE_DECK;
     player1 := Some (joining exampleDecks 1%nat {| uid := "u1" |});
     player2 := Some (joining exampleDecks 2%nat {| uid := "u2" |});
     playerTurn := None |}.

End Server.

(** * The card catalog of the game engine ("game/cards/dm01") *)

Module Game.

(** ** Cards ("game/match", "game/civ", "game/family", "game/fx") *)

Module civ.
Definition Darkness : string := "Darkness".
End civ.

Module family.
Definition LivingDead : string := "Living Dead".
End family.

(** The effect tags the factories of [living_dead.go] pass to [Use]. *)
Inductive Effect : Type := Creature | Slayer | Suicide.

#[global] Instance Effect_eq_dec : EqDecision Effect.
Proof. solve_decision. Defined.

Inductive Container : Type :=
| DECK
| HAND
| SHIELDZONE
| MANAZONE
| GRAVEYARD
| BATTLEZONE
| HIDDENZONE.

#[global] Instance Container_eq_dec : EqDecision Container.
Proof. solve_decision. Defined.

(** [match.Card]: the fields the factories fill in, the effects bound by
    [Use], and what makes a card one physical copy: its instance id, current
    zone and tapped flag. *)
Record Card : Type := {
  ID : string;
  Name : string;
  Power : Z;
  Civ : string;
  Family : string;
  ManaCost : Z;
  ManaRequirement : list string;
  handlers : list Effect;
  Zone : Container;
  Tapped : bool
}.

Definition set_Name (v : string) (c : Card) : Card :=
  {| ID := ID c; Name := v; Power := Power c; Civ := Civ c;
     Family := Family c; ManaCost := ManaCost c;
     ManaRequirement := ManaRequirement c; handlers := handlers c;
     Zone := Zone c; Tapped := Tapped c |}.

Definition set_Power (v : Z) (c : Card) : Card :=
  {| ID := ID c; Name := Name c; Power := v; Civ := Civ c;
     Family := Family c; ManaCost := ManaCost c;
     ManaRequirement := ManaRequirement c; handlers := handlers c;
     Zone := Zone c; Tapped := Tapped c |}.

Definition set_Civ (v : string) (c : Card) : Card :=
  {| ID := ID c; Name := Name c; Power := Power c; Civ := v;
     Family := Family c; ManaCost := ManaCost c;
     ManaRequirement := ManaRequirement c; handlers := handlers c;
     Zone := Zone c; Tapped := Tapped c |}.

Definition set_Family (v : string) (c : Card) : Card :=
  {| ID := ID c; Name := Name c; Power := Power c; Civ := Civ c;
     Family := v; ManaCost := ManaCost c;
     ManaRequirement := ManaRequirement c; handlers := handlers c;
     Zone := Zone c; Tapped := Tapped c |}.

Definition set_ManaCost (v : Z) (c : Card) : Card :=
  {| ID := ID c; Name := Name c; Power := Power c; Civ := Civ c;
     Family := Family c; ManaCost := v;
     ManaRequirement := ManaRequirement c; handlers := handlers c;
     Zone := Zone c; Tapped := Tapped c |}.

Definition set_ManaRequirement (v : list string) (c : Card) : Card :=
  {| ID := ID c; Name := Name c; Power := Power c; Civ := Civ c;
     Family := Family c; ManaCost := ManaCost c;
     ManaRequirement := v; handlers := handlers c;
     Zone := Zone c; Tapped := Tapped c |}.

Definition set_handlers (v : list Effect) (c : Card) : Card :=
  {| ID := ID c; Name := Name c; Power := Power c; Civ := Civ c;
     Family := Family c; ManaCost := ManaCost c;
     ManaRequirement := ManaRequirement c; handlers := v;
     Zone := Zone c; Tapped := Tapped c |}.

Definition set_Zone (v : Container) (c : Card) : Card :=
  {| ID := ID c; Name := Name c; Power := Power c; Civ := Civ c;
     Family := Family c; ManaCost := ManaCost c;
     ManaRequirement := ManaRequirement c; handlers := handlers c;
     Zone := v; Tapped := Tapped c |}.

(** Modelled from the spec: [Card.Use] is missing from the sources; it binds
    the given effect tags to the card, after those bound before ("ordered
    list of bound effect names", section 3). *)
Definition Use (hs : list Effect) (c : Card) : Card :=
  set_handlers (handlers c ++ hs) c.

(** ** The factories of [living_dead.go] *)

Definition BoneAssassin (c : Card) : Card :=
  let c := set_Name "Bone Assassin, the Ripper" c in
  let c := set_Power 2000 c in
  let c := set_Civ civ.Darkness c in
  let c := set_Family family.LivingDead c in
  let c := set_ManaCost 4 c in
  let c := set_ManaRequirement [civ.Darkness] c in
  Use [Creature; Slayer] c.

Definition BoneSpider (c : Card) : Card :=
  let c := set_Name "Bone Spider" c in
  let c := set_Power 5000 c in
  let c := set_Civ civ.Darkness c in
  let c := set_Family family.LivingDead c in
  let c := set_ManaCost 3 c in
  let c := set_ManaRequirement [civ.Darkness] c in
  Use [Creature; Suicide] c.

Definition SkeletonSoldierTheDefiled (c : Card) : Card :=
  let c := set_Name "Skeleton Soldier, the Defiled" c in
  let c := set_Power 3000 c in
  let c := set_Civ civ.Darkness c in
  let c := set_Family family.LivingDead c in
  let c := set_ManaCost 4 c in
  let c := set_ManaRequirement [civ.Darkness] c in
  Use [Creature; Suicide] c.

(** Modelled from the spec: the blank card a factory populates and the
    instantiation of a template are missing from the sources; "a function
    that populates a blank template" (section 4.1) yields the card, which
    starts in the deck of its owner with a fresh instance id. *)
Definition blank (iid : string) : Card :=
  {| ID := iid; Name := ""; Power := 0; Civ := ""; Family := "";
     ManaCost := 0; ManaRequirement := []; handlers := [];
     Zone := DECK; Tapped := false |}.

Definition instantiate (factory : Card -> Card) (iid : string) : Card :=
  factory (blank iid).

(** ** Zones and effect hooks *)

Inductive EventKey : Type :=
| onEnterBattleZone
| onLeaveBattleZone
| onStartOfTurn
| onAfterCombat
| onBeforeAttack.

#[global] Instance EventKey_eq_dec : EqDecision EventKey.
Proof. solve_decision. Defined.

(** What a handler asks of the engine. *)
Inductive Command : Type :=
| MoveSelf (from to : Container).

(** Modelled from the spec: the dispatch table is missing from the sources.
    "An effect tag maps to ... lifecycle-event bindings" (section 4.2):
    Suicide is "move self to graveyard after combat" and binds nothing else
    (its [onEnterBattleZone] is a no-op, section 8); the spec binds no zone
    change of the card itself to Creature or Slayer. *)
Definition bindings (e : Effect) (k : EventKey) : list Command :=
  match e, k with
  | Suicide, onAfterCombat => [MoveSelf BATTLEZONE GRAVEYARD]
  | _, _ => []
  end.

(** The zone set of one player: the container behind each zone. *)
Definition Zones : Type := Container -> list Card.

Definition update (z : Container) (l : list Card) (zs : Zones) : Zones :=
  fun z' => if decide (z' = z) then l else zs z'.

Definition containers : list Container :=
  [DECK; HAND; SHIELDZONE; MANAZONE; GRAVEYARD; BATTLEZONE; HIDDENZONE].

(** The instance with the given id, in a container and in the zone set. *)
Definition lookupIn (iid : string) (l : list Card) : option Card :=
  List.find (fun c => bool_decide (ID c = iid)) l.

Definition findCard (iid : string) (zs : Zones) : option Card :=
  lookupIn iid (concat (zs <$> containers)).

Definition without (iid : string) (l : list Card) : list Card :=
  List.filter (fun c => negb (bool_decide (ID c = iid))) l.

Inductive MoveResult : Type :=
| Moved (zs : Zones)
| ValidationError
| OutOfFuel.

(** Modelled from the spec: the dispatch of handlers is missing from the
    sources.  The handlers bound to an event are called for one instance,
    "synchronously, in zone-order" and binding order (section 4.2); a
    handler changes zones by re-entering the zone move [move], and a move
    that fails validation "produces no mutation" and is not fatal
    (sections 7 and 8). *)
Fixpoint exec (move : string -> Container -> Container -> Zones -> MoveResult)
    (iid : string) (cmds : list Command) (zs : Zones) : MoveResult :=
  match cmds with
  | [] => Moved zs
  | MoveSelf from to :: cmds' =>
      match move iid from to zs with
      | Moved zs' => exec move iid cmds' zs'
      | ValidationError => exec move iid cmds' zs
      | OutOfFuel => OutOfFuel
      end
  end.

Definition dispatch (move : string -> Container -> Container -> Zones -> MoveResult)
    (k : EventKey) (iid : string) (zs : Zones) : MoveResult :=
  match findCard iid zs with
  | None => Moved zs
  | Some c => exec move iid (concat ((fun e => bindings e k) <$> handlers c)) zs
  end.

(** Modelled from the spec: the zone move is missing from the sources.
    [moveCard] is the operation of section 4.3: the instance must be in
    [from]; it is removed from that container, appended to [to] with its
    current zone updated, and the [onLeaveBattleZone] / [onEnterBattleZone]
    hooks fire when either zone is the battle zone.  Handlers re-enter the
    move, so the recursion is bounded by [fuel]. *)
Definition relocate (c : Card) (from to : Container) (zs : Zones) : Zones :=
  let zs1 := update from (without (ID c) (zs from)) zs in
  update to (zs1 to ++ [set_Zone to c]) zs1.

Fixpoint moveCard (fuel : nat) (iid : string) (from to : Container)
    (zs : Zones) : MoveResult :=
  match fuel with
  | O => OutOfFuel
  | S fuel' =>
      match lookupIn iid (zs from) with
      | None => ValidationError
      | Some c =>
          let zs2 := relocate c from to zs in
          let left :=
            if decide (from = BATTLEZONE)
            then dispatch (moveCard fuel') onLeaveBattleZone iid zs2
            else Moved zs2 in
          match left with
          | Moved zs3 =>
              if decide (to = BATTLEZONE)
              then dispatch (moveCard fuel') onEnterBattleZone iid zs3
              else Moved zs3
          | r => r
          end
      end
  end.

(** Firing an event for one instance. *)
Definition fire (fuel : nat) (k : EventKey) (iid : string) (zs : Zones)
  : MoveResult :=
  match fuel with
  | O => OutOfFuel
  | S fuel' => dispatch (moveCard fuel') k iid zs
  end.

(** Every instance id occurs once in the zone set (section 3: an instance
    "belongs to exactly one zone at a time"). *)
Definition unique_ids (zs : Zones) : Prop :=
  NoDup (ID <$> concat (zs <$> containers)).

(** The instance [iid] is the card [c], held by the container [z] and by no
    other. *)
Definition sole (iid : string) (z : Container) (c : Card) (zs : Zones) : Prop :=
  lookupIn iid (zs z) = Some c /\
  forall z', z' <> z -> lookupIn iid (zs z') = None.

(** What the handler of Suicide asks for. *)
Definition destroy : Command := MoveSelf BATTLEZONE GRAVEYARD.

(** *** A zone set for the examples *)

Definition exampleSpider : Card := set_Zone HAND (instantiate BoneSpider "s1").

Definition exampleSoldier : Card := instantiate SkeletonSoldierTheDefiled "k1".

Definition exampleZones : Zones :=
  fun z =>
    match z with
    | HAND => [exampleSpider; set_Zone HAND (instantiate BoneAssassin "a1")]
    | DECK => [exampleSoldier]
    | _ => []
    end.

End Game.

(** * Properties of the match server *)

Module ServerFacts.
Import Server.
Local Open Scope fx_scope.

(** ** Rules for computations *)

Lemma preserves_ret {A : Type} (P : IMatch -> Prop) (a : A) :
  preserves P (ret a).
Proof. intros m Hm. exact Hm. Qed.

Lemma preserves_get (P : IMatch -> Prop) : preserves P get.
Proof. intros m Hm. exact Hm. Qed.

Lemma preserves_throw {A : Type} (P : IMatch -> Prop) (e : string) :
  preserves P (@throw IMatch A e).
Proof. intros m Hm. exact Hm. Qed.

Lemma preserves_emit (P : IMatch -> Prop) (es : list Event) :
  preserves P (emit es).
Proof. intros m Hm. exact Hm. Qed.

Lemma preserves_defined {A : Type} (P : IMatch -> Prop) (o : option A) :
  preserves P (defined o).
Proof. destruct o; intros m Hm; exact Hm. Qed.

Lemma preserves_modify (P : IMatch -> Prop) (f : IMatch -> IMatch) :
  (forall m, P m -> P (f m)) -> preserves P (modify f).
Proof. intros Hf m Hm. apply Hf, Hm. Qed.

Lemma preserves_bind {A B : Type} (P : IMatch -> Prop)
    (c : Fx IMatch A) (k : A -> Fx IMatch B) :
  preserves P c -> (forall a, preserves P (k a)) -> preserves P (bind c k).
Proof.
  intros Hc Hk m Hm. specialize (Hc m Hm).
  unfold bind, state in *.
  destruct (c m) as [[[a | e] m1] l1]; simpl in *; [| exact Hc].
  specialize (Hk a m1 Hc). unfold state in Hk.
  destruct (k a m1) as [[o m2] l2]. exact Hk.
Qed.

Lemma bind_returned {S A B : Type} (c : Fx S A) (k : A -> Fx S B) s a s1 l1 :
  c s = (Returned a, s1, l1) -> bind c k s = prepend l1 (k a s1).
Proof.
  intros H. unfold bind, prepend, outcome, state, sent. rewrite H.
  destruct (k a s1) as [[o s2] l2]. reflexivity.
Qed.

Lemma prepend_nil {S A : Type} (r : Outcome A * S * list Event) :
  prepend [] r = r.
Proof. destruct r as [[o s] l]. reflexivity. Qed.

Lemma prepend_prepend {S A : Type} l1 l2 (r : Outcome A * S * list Event) :
  prepend l1 (prepend l2 r) = prepend (l1 ++ l2) r.
Proof.
  unfold prepend, outcome, state, sent. simpl. rewrite app_assoc. reflexivity.
Qed.

Lemma state_prepend {S A : Type} l (r : Outcome A * S * list Event) :
  state (prepend l r) = state r.
Proof. reflexivity. Qed.

Lemma outcome_prepend {S A : Type} l (r : Outcome A * S * list Event) :
  outcome (prepend l r) = outcome r.
Proof. reflexivity. Qed.

Lemma sent_prepend {S A : Type} l (r : Outcome A * S * list Event) :
  sent (prepend l r) = l ++ sent r.
Proof. reflexivity. Qed.

(** One step of a computation whose first call returns by evaluation. *)
Ltac fx_step :=
  erewrite bind_returned by reflexivity; rewrite ?prepend_nil; cbv beta.

(** ** Players and zones *)

Lemma getPlayer_set_phase s ph m :
  getPlayer s (set_phase ph m) = getPlayer s m.
Proof. destruct s; reflexivity. Qed.

Lemma getPlayer_putPlayer s p m : getPlayer s (putPlayer s p m) = Some p.
Proof. destruct s; reflexivity. Qed.

Lemma getPlayer_putPlayer_ne s s' p m :
  s <> s' -> getPlayer s (putPlayer s' p m) = getPlayer s m.
Proof. destruct s, s'; intros; try congruence; reflexivity. Qed.

Lemma playerTurn_putPlayer s p m : playerTurn (putPlayer s p m) = playerTurn m.
Proof. destruct s; reflexivity. Qed.

Lemma phase_putPlayer s p m : phase (putPlayer s p m) = phase m.
Proof. destruct s; reflexivity. Qed.

Lemma holder_head c d p : deck p = Some (c :: d) -> holder c p = Some DECK.
Proof.
  intros Hd. unfold holder. simpl. rewrite Hd. simpl.
  rewrite bool_decide_eq_true_2; [reflexivity | left].
Qed.

(** ** The effects *)

Lemma drawCardsFx_run s n m p :
  getPlayer s m = Some p ->
  drawCardsFx s n m = (Returned (take n (zoneOf DECK p)), m, []).
Proof.
  intros Hp. unfold drawCardsFx. fx_step. rewrite Hp. fx_step. reflexivity.
Qed.

(** The player after a card went from [from] to [to]. *)
Lemma moveCardToFx_run c to m s p from :
  player c = Some s -> getPlayer s m = Some p -> holder c p = Some from ->
  moveCardToFx c to m =
    (Returned tt,
     putPlayer s
       (setZone to
          (zoneOf to (setZone from (removeCard c (zoneOf from p)) p)
             ++ [set_zone to c])
          (setZone from (removeCard c (zoneOf from p)) p)) m, []).
Proof.
  intros Hc Hp Hh. unfold moveCardToFx. fx_step. rewrite Hc, Hp, Hh.
  reflexivity.
Qed.

(** A move returns, sends nothing, and changes at most the owner of the
    card. *)
Lemma moveCardToFx_cases c to m :
  moveCardToFx c to m = (Returned tt, m, []) \/
  exists s p from,
    player c = Some s /\ getPlayer s m = Some p /\ holder c p = Some from /\
    moveCardToFx c to m =
      (Returned tt,
       putPlayer s
         (setZone to
            (zoneOf to (setZone from (removeCard c (zoneOf from p)) p)
               ++ [set_zone to c])
            (setZone from (removeCard c (zoneOf from p)) p)) m, []).
Proof.
  destruct (player c) as [s |] eqn:Hc.
  - destruct (getPlayer s m) as [p |] eqn:Hp.
    + destruct (holder c p) as [from |] eqn:Hh.
      * right. exists s, p, from. repeat split; try assumption.
        by apply moveCardToFx_run.
      * left. unfold moveCardToFx. fx_step. by rewrite Hc, Hp, Hh.
    + left. unfold moveCardToFx. fx_step. by rewrite Hc, Hp.
  - left. unfold moveCardToFx. fx_step. by rewrite Hc.
Qed.

Lemma forOf_untapFx cs :
  forOf untapFx cs = (set_tapped false <$> cs, EvUntap <$> cs).
Proof.
  induction cs as [| c cs IH]; [reflexivity |].
  simpl. rewrite IH. reflexivity.
Qed.

Lemma forOf_resolveSummoningSicknessFx cs :
  forOf resolveSummoningSicknessFx cs =
    (set_summoningSickness false <$> cs, EvResolveSummoningSickness <$> cs).
Proof.
  induction cs as [| c cs IH]; [reflexivity |].
  simpl. rewrite IH. reflexivity.
Qed.

Lemma forOfZone_run z body m s p :
  playerTurn m = Some s -> getPlayer s m = Some p ->
  forOfZone z body m =
    (Returned tt,
     putPlayer s (setZone z (fst (forOf body (zoneOf z p))) p) m,
     snd (forOf body (zoneOf z p))).
Proof.
  intros Ht Hp. unfold forOfZone. fx_step. rewrite Ht. fx_step.
  rewrite Hp. fx_step. destruct (forOf body (zoneOf z p)) as [cs es].
  fx_step. reflexivity.
Qed.

(** ** The steps of a turn *)

(** The draw step of a player whose deck is not empty. *)
Lemma drawStep_nonempty m s p c d :
  playerTurn m = Some s -> getPlayer s m = Some p -> deck p = Some (c :: d) ->
  drawStep m =
    (Returned tt,
     set_phase CHARGE_STEP (state (moveCardToFx c HAND (set_phase DRAW_STEP m))),
     [EvSetPhase DRAW_STEP; EvSetPhase CHARGE_STEP]).
Proof.
  intros Ht Hp Hd. unfold drawStep.
  fx_step. fx_step. simpl playerTurn. rewrite Ht. fx_step.
  rewrite getPlayer_set_phase, Hp. fx_step. rewrite Hd. fx_step.
  change (length (c :: d) <? 1)%nat with false. cbv iota.
  erewrite bind_returned
    by (apply drawCardsFx_run; rewrite getPlayer_set_phase; exact Hp).
  simpl zoneOf. rewrite Hd. simpl take. simpl head. fx_step.
  destruct (moveCardToFx_cases c HAND (set_phase DRAW_STEP m))
    as [E | (s' & p' & from & _ & _ & _ & E)];
    rewrite E; erewrite bind_returned by exact E; reflexivity.
Qed.

(** A successful draw: the top card of the deck goes to the hand of its
    owner, the active player. *)
Lemma drawStep_draws_one m s p c d :
  playerTurn m = Some s -> getPlayer s m = Some p ->
  deck p = Some (c :: d) -> player c = Some s ->
  drawStep m =
    (Returned tt,
     set_phase CHARGE_STEP
       (putPlayer s
          (set_hand (hand p ++ [set_zone HAND c]) (set_deck (Some d) p))
          (set_phase DRAW_STEP m)),
     [EvSetPhase DRAW_STEP; EvSetPhase CHARGE_STEP]).
Proof.
  intros Ht Hp Hd Hc. rewrite (drawStep_nonempty m s p c d Ht Hp Hd).
  erewrite moveCardToFx_run;
    [| exact Hc | rewrite getPlayer_set_phase; exact Hp
     | exact (holder_head c d p Hd)].
  unfold state. simpl. rewrite Hd. simpl.
  rewrite decide_True by reflexivity. reflexivity.
Qed.

Lemma drawStep_sizes m s p c d :
  playerTurn m = Some s -> getPlayer s m = Some p ->
  deck p = Some (c :: d) -> player c = Some s ->
  exists p',
    getPlayer s (state (drawStep m)) = Some p' /\
    length (hand p') = S (length (hand p)) /\
    (length <$> deck p') = Some (length d).
Proof.
  intros Ht Hp Hd Hc. rewrite (drawStep_draws_one m s p c d Ht Hp Hd Hc).
  eexists. unfold state. simpl. rewrite getPlayer_set_phase, getPlayer_putPlayer.
  split; [reflexivity |]. simpl. rewrite length_app. simpl. split; [lia | reflexivity].
Qed.

Lemma startTurnStep_run m :
  startTurnStep m =
    prepend [EvSetPhase START_TURN_STEP] (drawStep (set_phase START_TURN_STEP m)).
Proof. unfold startTurnStep. fx_step. reflexivity. Qed.

Lemma untapStep_run m s p :
  playerTurn m = Some s -> getPlayer s m = Some p ->
  untapStep m =
    prepend
      ([EvSetPhase UNTAP_STEP] ++ (EvUntap <$> battlezone p) ++
       (EvUntap <$> manazone p) ++
       [EvStateUpdate (clientsOf (putPlayer s (untapAll p) m))])
      (startTurnStep (putPlayer s (untapAll p) (set_phase UNTAP_STEP m))).
Proof.
  intros Ht Hp. unfold untapStep. fx_step.
  erewrite bind_returned
    by (apply forOfZone_run; [exact Ht | rewrite getPlayer_set_phase; exact Hp]).
  rewrite forOf_untapFx. cbn [fst snd zoneOf setZone].
  erewrite bind_returned
    by (apply forOfZone_run;
        [rewrite playerTurn_putPlayer; exact Ht | apply getPlayer_putPlayer]).
  rewrite forOf_untapFx. cbn [fst snd zoneOf setZone].
  fx_step.
  rewrite !prepend_prepend.
  destruct s; simpl; rewrite <- ?app_assoc; reflexivity.
Qed.

Lemma beginTurn_run m s p :
  playerTurn m = Some s -> getPlayer s m = Some p ->
  beginTurn m =
    prepend
      ([EvSetPhase BEGIN_TURN_STEP] ++
       (EvResolveSummoningSickness <$> battlezone p))
      (untapStep (putPlayer s (resolveAll p) (set_phase BEGIN_TURN_STEP m))).
Proof.
  intros Ht Hp. unfold beginTurn. fx_step.
  erewrite bind_returned
    by (apply forOfZone_run; [exact Ht | rewrite getPlayer_set_phase; exact Hp]).
  rewrite forOf_resolveSummoningSicknessFx. cbn [fst snd zoneOf setZone].
  rewrite !prepend_prepend. reflexivity.
Qed.
Lemma drawStep_no_deck m s p :
  playerTurn m = Some s -> getPlayer s m = Some p -> deck p = None ->
  drawStep m = (Thrown "TypeError", set_phase DRAW_STEP m, [EvSetPhase DRAW_STEP]).
Proof.
  intros Ht Hp Hd. unfold drawStep.
  fx_step. fx_step. simpl playerTurn. rewrite Ht. fx_step.
  rewrite getPlayer_set_phase, Hp. fx_step. rewrite Hd. reflexivity.
Qed.

Lemma drawStep_stops m s p :
  playerTurn m = Some s ->
  getPlayer s m = Some p ->
  deck p = Some [] ->
  drawStep m = (Returned tt, set_phase DRAW_STEP m, [EvSetPhase DRAW_STEP]).
Proof.
  intros Ht Hp Hd. unfold drawStep.
  fx_step. fx_step. simpl playerTurn. rewrite Ht. fx_step.
  rewrite getPlayer_set_phase, Hp. fx_step. rewrite Hd. fx_step.
  reflexivity.
Qed.

(** Moving the top card of the deck of [p] to a hand leaves the battle zone
    and the mana zone of [p] as they are. *)
Lemma moveCardToFx_top_keeps_zones c d m s p :
  getPlayer s m = Some p -> deck p = Some (c :: d) ->
  exists p',
    getPlayer s (state (moveCardToFx c HAND m)) = Some p' /\
    battlezone p' = battlezone p /\ manazone p' = manazone p /\
    playerTurn (state (moveCardToFx c HAND m)) = playerTurn m /\
    phase (state (moveCardToFx c HAND m)) = phase m.
Proof.
  intros Hp Hd.
  destruct (moveCardToFx_cases c HAND m)
    as [E | (s' & p' & from & Hc & Hp' & Hh & E)]; rewrite E; unfold state; simpl.
  - exists p. auto.
  - rewrite playerTurn_putPlayer, phase_putPlayer.
    destruct (decide (s = s')) as [<- | Hne].
    + rewrite Hp in Hp'. injection Hp' as <-.
      rewrite (holder_head c d p Hd) in Hh. injection Hh as <-.
      rewrite getPlayer_putPlayer. eexists. split; [reflexivity |]. auto.
    + rewrite getPlayer_putPlayer_ne by exact Hne. exists p. auto.
Qed.

Lemma drawStep_keeps_zones m s p :
  playerTurn m = Some s -> getPlayer s m = Some p ->
  exists p',
    getPlayer s (state (drawStep m)) = Some p' /\
    battlezone p' = battlezone p /\ manazone p' = manazone p /\
    playerTurn (state (drawStep m)) = Some s.
Proof.
  intros Ht Hp. destruct (deck p) as [[| c d] |] eqn:Hd.
  - rewrite (drawStep_stops m s p Ht Hp Hd). unfold state. simpl.
    rewrite getPlayer_set_phase. exists p. auto.
  - rewrite (drawStep_nonempty m s p c d Ht Hp Hd).
    destruct (moveCardToFx_top_keeps_zones c d (set_phase DRAW_STEP m) s p)
      as (p' & Hp' & Hb & Hm & Hpt & _);
      [rewrite getPlayer_set_phase; exact Hp | exact Hd |].
    exists p'. change (state (?a, ?b, ?c)) with b. simpl.
    rewrite getPlayer_set_phase.
    repeat split; auto. rewrite Hpt. exact Ht.
  - rewrite (drawStep_no_deck m s p Ht Hp Hd). unfold state. simpl.
    rewrite getPlayer_set_phase. exists p. auto.
Qed.

Lemma drawStep_sent_phases m :
  exists rest,
    sent (drawStep m) = EvSetPhase DRAW_STEP :: rest /\
    (rest = [] \/ rest = [EvSetPhase CHARGE_STEP]).
Proof.
  destruct (playerTurn m) as [s |] eqn:Ht.
  - destruct (getPlayer s m) as [p |] eqn:Hp.
    + destruct (deck p) as [[| c d] |] eqn:Hd.
      * rewrite (drawStep_stops m s p Ht Hp Hd). eexists; split; [reflexivity | auto].
      * rewrite (drawStep_nonempty m s p c d Ht Hp Hd). eexists; split; [reflexivity | auto].
      * rewrite (drawStep_no_deck m s p Ht Hp Hd). eexists; split; [reflexivity | auto].
    + unfold drawStep. fx_step. fx_step. simpl playerTurn. rewrite Ht. fx_step.
      rewrite getPlayer_set_phase, Hp. eexists; split; [reflexivity | auto].
  - unfold drawStep. fx_step. fx_step. simpl playerTurn. rewrite Ht.
    eexists; split; [reflexivity | auto].
Qed.

Lemma beginTurn_to_draw m s p :
  playerTurn m = Some s -> getPlayer s m = Some p ->
  beginTurn m =
    prepend (turnOpening m s p)
      (drawStep
         (set_phase START_TURN_STEP (putPlayer s (untapAll (resolveAll p)) m))).
Proof.
  intros Ht Hp. rewrite (beginTurn_run m s p Ht Hp).
  rewrite (untapStep_run _ s (resolveAll p))
    by (first [rewrite playerTurn_putPlayer; exact Ht | apply getPlayer_putPlayer]).
  rewrite startTurnStep_run, !prepend_prepend.
  unfold turnOpening.
  destruct s; simpl; rewrite <- ?app_assoc; simpl; rewrite <- ?app_assoc;
    reflexivity.
Qed.

Lemma phases_app l1 l2 : phases (l1 ++ l2) = phases l1 ++ phases l2.
Proof. apply omap_app. Qed.

Lemma phases_untap cs : phases (EvUntap <$> cs) = [].
Proof. induction cs; [reflexivity | exact IHcs]. Qed.

Lemma phases_resolve cs : phases (EvResolveSummoningSickness <$> cs) = [].
Proof. induction cs; [reflexivity | exact IHcs]. Qed.

Lemma phases_turnOpening m s p :
  phases (turnOpening m s p) = [BEGIN_TURN_STEP; UNTAP_STEP; START_TURN_STEP].
Proof.
  unfold turnOpening.
  rewrite !phases_app, phases_untap, phases_untap, phases_resolve. reflexivity.
Qed.


(** ** Both players stay connected through a turn *)

Lemma seated_set_phase ph m : seated m -> seated (set_phase ph m).
Proof. intros H. exact H. Qed.

Lemma seated_putPlayer s p m : seated m -> seated (putPlayer s p m).
Proof. intros [H1 H2]. destruct s; split; simpl; eauto. Qed.

Lemma seated_set_playerTurn t m : seated m -> seated (set_playerTurn t m).
Proof. intros H. exact H. Qed.

Ltac preserves_with leaf :=
  repeat first
    [ leaf
    | apply preserves_ret | apply preserves_get | apply preserves_throw
    | apply preserves_emit | apply preserves_defined
    | apply preserves_modify; intros; first
        [ apply seated_set_phase | apply seated_putPlayer
        | apply seated_set_playerTurn ]; assumption
    | apply preserves_bind; [| intros ?] ].

Lemma seated_setPhaseFx ph : preserves seated (setPhaseFx ph).
Proof. unfold setPhaseFx. preserves_with fail. Qed.

Lemma seated_forOfZone z body : preserves seated (forOfZone z body).
Proof.
  unfold forOfZone. preserves_with fail.
  match goal with |- context [forOf ?b ?l] => destruct (forOf b l) end.
  preserves_with fail.
Qed.

Lemma seated_moveCardToFx c to : preserves seated (moveCardToFx c to).
Proof.
  intros m Hm.
  destruct (moveCardToFx_cases c to m) as [E | (s & p & from & _ & _ & _ & E)];
    rewrite E; [exact Hm | by apply seated_putPlayer].
Qed.

Lemma seated_drawStep : preserves seated drawStep.
Proof.
  unfold drawStep, drawCardsFx, chargeStep.
  preserves_with ltac:(apply seated_setPhaseFx).
  match goal with |- context [if ?b then _ else _] => destruct b end;
    preserves_with
      ltac:(first [apply seated_moveCardToFx | apply seated_setPhaseFx]).
Qed.

Lemma seated_beginTurn : preserves seated beginTurn.
Proof.
  unfold beginTurn, untapStep, startTurnStep, stateUpdateFx.
  preserves_with
    ltac:(first [apply seated_setPhaseFx | apply seated_forOfZone
                | apply seated_drawStep]).
Qed.

(** The turn of a player who holds a deck, empty or not, runs to its
    end. *)
Lemma beginTurn_returns m s p :
  playerTurn m = Some s -> getPlayer s m = Some p -> is_Some (deck p) ->
  outcome (beginTurn m) = Returned tt /\
  playerTurn (state (beginTurn m)) = Some s /\
  is_Some (getPlayer s (state (beginTurn m))).
Proof.
  intros Ht Hp [dk Hd]. rewrite (beginTurn_to_draw m s p Ht Hp).
  rewrite outcome_prepend, state_prepend.
  set (m1 := set_phase START_TURN_STEP (putPlayer s (untapAll (resolveAll p)) m)).
  assert (Ht1 : playerTurn m1 = Some s)
    by (unfold m1; simpl; rewrite playerTurn_putPlayer; exact Ht).
  assert (Hp1 : getPlayer s m1 = Some (untapAll (resolveAll p)))
    by (unfold m1; rewrite getPlayer_set_phase; apply getPlayer_putPlayer).
  destruct (drawStep_keeps_zones m1 s _ Ht1 Hp1) as (p' & Hp' & _ & _ & Ht').
  split; [| split; [exact Ht' | rewrite Hp'; eauto]].
  destruct dk as [| c d].
  - rewrite (drawStep_stops m1 s _ Ht1 Hp1); [reflexivity | exact Hd].
  - rewrite (drawStep_nonempty m1 s _ c d Ht1 Hp1); [reflexivity | exact Hd].
Qed.

(** ** Starting a match *)

Section Start.
Variable setupPlayer : IPlayer -> IPlayer.

Lemma tryStartMatch_refuses r m :
  player1 m = None \/ player1 m ≫= deck = None \/
  player2 m = None \/ player2 m ≫= deck = None ->
  tryStartMatch setupPlayer r m = (Returned false, m, []).
Proof.
  intros H. unfold tryStartMatch. fx_step.
  destruct (player1 m) as [p1 |]; simpl in *; [| reflexivity].
  destruct (deck p1); simpl in *; [| reflexivity].
  destruct (player2 m) as [p2 |]; simpl in *; [| reflexivity].
  destruct (deck p2); simpl in *; [| reflexivity].
  destruct H as [H | [H | [H | H]]]; discriminate.
Qed.

Lemma tryStartMatch_run r m p1 p2 :
  player1 m = Some p1 -> player2 m = Some p2 ->
  is_Some (deck p1) -> is_Some (deck p2) ->
  tryStartMatch setupPlayer r m =
    let b := beginTurn (started setupPlayer r p1 p2 m) in
    (match outcome b with Returned _ => Returned true | Thrown e => Thrown e end,
     state b,
     EvStateUpdate [client (setupPlayer p1); client (setupPlayer p2)] :: sent b).
Proof.
  intros H1 H2 [d1 Hd1] [d2 Hd2]. unfold tryStartMatch. fx_step.
  rewrite H1, H2. simpl. rewrite Hd1, Hd2. simpl.
  fx_step. fx_step. fx_step. fx_step.
  unfold started. simpl.
  unfold bind, prepend, outcome, state, sent.
  destruct (beginTurn _) as [[[[] | e] mb] lb]; simpl; rewrite ?app_nil_r;
    reflexivity.
Qed.
Lemma started_active r p1 p2 m :
  playerTurn (started setupPlayer r p1 p2 m) = Some (if gt_half r then P1 else P2) /\
  getPlayer (if gt_half r then P1 else P2) (started setupPlayer r p1 p2 m)
    = Some (setupPlayer (if gt_half r then p1 else p2)).
Proof. unfold started. destruct (gt_half r); split; reflexivity. Qed.

Lemma tryStartMatch_trace r m p1 p2 c d :
  player1 m = Some p1 -> player2 m = Some p2 ->
  is_Some (deck p1) -> is_Some (deck p2) ->
  deck (setupPlayer (if gt_half r then p1 else p2)) = Some (c :: d) ->
  let res := tryStartMatch setupPlayer r m in
  outcome res = Returned true /\
  phases (sent res) =
    [BEGIN_TURN_STEP; UNTAP_STEP; START_TURN_STEP; DRAW_STEP; CHARGE_STEP] /\
  last (sent res) = Some (EvSetPhase CHARGE_STEP) /\
  phase (state res) = CHARGE_STEP.
Proof.
  intros H1 H2 Hd1 Hd2 Hd res. subst res.
  rewrite (tryStartMatch_run r m p1 p2 H1 H2 Hd1 Hd2). cbv zeta.
  destruct (started_active r p1 p2 m) as [Ht Hp].
  rewrite (beginTurn_to_draw _ _ _ Ht Hp).
  erewrite drawStep_nonempty;
    [| simpl; rewrite playerTurn_putPlayer; exact Ht
     | rewrite getPlayer_set_phase; apply getPlayer_putPlayer
     | simpl; exact Hd].
  unfold prepend, outcome, state, sent. cbn [fst snd].
  split; [reflexivity |]. split; [| split; [| reflexivity]].
  - change (phases (?e :: ?l)) with (phases ([e] ++ l)).
    rewrite !phases_app, phases_turnOpening. reflexivity.
  - match goal with
    | |- last (?e :: ?l ++ [?a; ?b]) = _ =>
        replace (e :: l ++ [a; b]) with ((e :: l ++ [a]) ++ [b])
          by (simpl; rewrite <- app_assoc; reflexivity)
    end.
    apply last_snoc.
Qed.
End Start.

(** ** Choosing a deck *)

Section Calls.
Variable getCard : string -> ICard.
Variable cardSetup : ICard -> ICard.
Variable setupPlayer : IPlayer -> IPlayer.
Variable findDecks : string -> list IDeck.

(** [tryStartMatch] leaves the match as it is, or leaves it with both players. *)
Lemma tryStartMatch_state r m :
  tryStartMatch setupPlayer r m = (Returned false, m, []) \/
  seated (state (tryStartMatch setupPlayer r m)).
Proof.
  destruct (player1 m) as [p1 |] eqn:H1;
    [| left; apply tryStartMatch_refuses; auto].
  destruct (deck p1) as [d1 |] eqn:Hd1;
    [| left; apply tryStartMatch_refuses; rewrite H1; simpl; auto].
  destruct (player2 m) as [p2 |] eqn:H2;
    [| left; apply tryStartMatch_refuses; auto].
  destruct (deck p2) as [d2 |] eqn:Hd2;
    [| left; apply tryStartMatch_refuses; rewrite H2; simpl; auto].
  right.
  rewrite (tryStartMatch_run setupPlayer r m p1 p2 H1 H2) by (rewrite ?Hd1, ?Hd2; eauto).
  cbv zeta. change (state (?a, ?b, ?c)) with b.
  apply seated_beginTurn. unfold started. split; simpl; eauto.
Qed.

Lemma playerChooseDeck_absent e s d m :
  getPlayer s m = None ->
  playerChooseDeck getCard cardSetup setupPlayer e s d m = (Thrown "TypeError", m, []).
Proof. intros Hp. unfold playerChooseDeck. fx_step. rewrite Hp. reflexivity. Qed.

Lemma playerChooseDeck_ignored e s d m p :
  getPlayer s m = Some p ->
  phase m <> CHOOSE_DECK \/ is_Some (deck p) ->
  playerChooseDeck getCard cardSetup setupPlayer e s d m = (Returned tt, m, []).
Proof.
  intros Hp H. unfold playerChooseDeck. fx_step. rewrite Hp. fx_step.
  case_bool_decide; [reflexivity |].
  destruct H as [H | [dk H]]; [contradiction |]. rewrite H. reflexivity.
Qed.

Lemma state_then_ret {A : Type} (c : Fx IMatch A) m :
  state ((c >> ret tt) m) = state (c m).
Proof.
  unfold bind, ret, state. destruct (c m) as [[[a | err] m1] l1]; reflexivity.
Qed.

(** A call of [playerChooseDeck] keeps the match invariant. *)
Lemma playerChooseDeck_invariant e s d m :
  pregame_until_full m ->
  pregame_until_full (state (playerChooseDeck getCard cardSetup setupPlayer e s d m)).
Proof.
  intros Hinv. destruct (getPlayer s m) as [p |] eqn:Hp;
    [| rewrite playerChooseDeck_absent by exact Hp; exact Hinv].
  unfold playerChooseDeck. fx_step. rewrite Hp. fx_step.
  case_bool_decide as Hph; [exact Hinv |].
  destruct (deck p) eqn:Hd; [exact Hinv |]. simpl.
  destruct (List.find _ (decks p)) as [dk |]; [| exact Hinv].
  fx_step. rewrite state_then_ret.
  match goal with |- context [tryStartMatch setupPlayer ?r ?m1] =>
    destruct (tryStartMatch_state r m1) as [E | [Hs1 Hs2]]
  end.
  - rewrite E. change (state (?a, ?b, ?c)) with b.
    intros Hnone. rewrite phase_putPlayer. apply Hinv.
    destruct s; simpl in *; destruct Hnone as [? | ?]; auto; discriminate.
  - intros [Hn | Hn]; rewrite Hn in *; [destruct Hs1 | destruct Hs2]; discriminate.
Qed.
(** ** The array of matches *)

Lemma getMatch_Some i ms k m :
  getMatch i ms = Some (k, m) -> ms !! k = Some m /\ id m = i.
Proof.
  unfold getMatch. intros H. apply list_find_Some in H.
  destruct H as (H1 & H2 & _). auto.
Qed.

Lemma atMatch_run {A : Type} i (c : Fx IMatch A) (ms : Matches) m :
  ms !! i = Some m ->
  atMatch i c ms = (outcome (c m), <[i := state (c m)]> ms, sent (c m)).
Proof.
  intros H. unfold atMatch. rewrite H.
  destruct (c m) as [[o m'] l]. reflexivity.
Qed.

Lemma atMatch_absent {A : Type} i (c : Fx IMatch A) (ms : Matches) :
  ms !! i = None -> atMatch i c ms = (Thrown "TypeError", ms, []).
Proof. intros H. unfold atMatch. rewrite H. reflexivity. Qed.

(** ** Joining a match *)

(** A call of [addPlayer] is rejected with one error message and no change,
    or seats a new player without a deck: in the first slot, or in the
    second, which opens the choice of decks. *)
Lemma addPlayer_cases client user matchId inviteId (ms : Matches) :
  (exists msg,
     addPlayer findDecks client user matchId inviteId ms
       = (Returned tt, ms, [EvSendError client msg])) \/
  (exists i m pl m',
     getMatch matchId ms = Some (i, m) /\ phase m = IDLE /\
     inviteId = Server.inviteId m /\ deck pl = None /\
     state (addPlayer findDecks client user matchId inviteId ms) = <[i := m']> ms /\
     ((player1 m = None /\ m' = set_player1 (Some pl) m) \/
      (is_Some (player1 m) /\ player2 m = None /\
       m' = set_phase CHOOSE_DECK (set_player2 (Some pl) m)))).
Proof.
  unfold addPlayer. rewrite (bind_returned get _ ms ms ms []) by reflexivity.
  rewrite prepend_nil.
  destruct (getMatch matchId ms) as [[i m] |] eqn:Hg; [| left; eexists; reflexivity].
  destruct (getMatch_Some _ _ _ _ Hg) as [Hi _].
  case_bool_decide as Hph; [left; eexists; reflexivity |].
  case_bool_decide as Hinv; [left; eexists; reflexivity |].
  set (pl := {| Server.user := user; Server.client := client;
                decks := findDecks (uid user); deck := None; hand := [];
                shieldzone := []; manazone := []; graveyard := [];
                battlezone := []; hiddenzone := [] |}).
  destruct (player1 m) as [p1 |] eqn:H1; simpl.
  - destruct (player2 m) as [p2 |] eqn:H2; simpl; [left; eexists; reflexivity |].
    right. exists i, m, pl, (set_phase CHOOSE_DECK (set_player2 (Some pl) m)).
    repeat split; try assumption; try reflexivity.
    + fx_step. rewrite (atMatch_run _ _ _ _ Hi).
      rewrite state_prepend. change (state (?a, ?b, ?c)) with b. f_equal.
      unfold bind, modify, get, state. simpl. rewrite H1. reflexivity.
    + right. split; [eauto | split; [exact H2 | reflexivity]].
  - right. exists i, m, pl, (set_player1 (Some pl) m).
    split; [reflexivity |]. split; [exact Hph |]. split; [exact Hinv |].
    split; [reflexivity |]. split; [| left; split; [exact H1 | reflexivity]].
    fx_step. rewrite (atMatch_run _ _ _ _ Hi). reflexivity.
Qed.

(** ** Calls and runs *)

Local Abbreviation step' := (step getCard cardSetup setupPlayer findDecks).
Local Abbreviation run' := (run getCard cardSetup setupPlayer findDecks).

Lemma step_create e h n d (ms : Matches) :
  state (step' e (InCreate h n d) ms) =
    ms ++ [ {| id := shortid e 0; inviteId := shortid e 1; name := n;
               description := d; phase := IDLE; player1 := None;
               player2 := None; playerTurn := None |} ].
Proof. reflexivity. Qed.

Lemma step_chooseDeck e mi s d (ms : Matches) :
  state (step' e (InChooseDeck mi s d) ms) =
    match ms !! mi with
    | Some m =>
        <[mi := state (playerChooseDeck getCard cardSetup setupPlayer e s d m)]> ms
    | None => ms
    end.
Proof.
  simpl. destruct (ms !! mi) as [m |] eqn:Hm.
  - rewrite (atMatch_run _ _ _ _ Hm). reflexivity.
  - rewrite (atMatch_absent _ _ _ Hm). reflexivity.
Qed.

(** Every call keeps the invariant of every match. *)
Lemma step_invariant e inp (ms : Matches) :
  Forall pregame_until_full ms ->
  Forall pregame_until_full (state (step' e inp ms)).
Proof.
  intros Hms. destruct inp as [h n d | c u mid inv | mi s d].
  - rewrite step_create. apply Forall_app. split; [exact Hms |].
    apply Forall_singleton. intros _. reflexivity.
  - simpl.
    destruct (addPlayer_cases c u mid inv ms)
      as [[msg E] | (i & m & pl & m' & Hg & Hph & _ & _ & E & Hm')].
    + rewrite E. exact Hms.
    + rewrite E. apply Forall_insert; [exact Hms |].
      destruct Hm' as [[_ ->] | ([p1 H1] & _ & ->)].
      * intros _. exact Hph.
      * intros [Hn | Hn]; simpl in Hn; congruence.
  - rewrite step_chooseDeck. destruct (ms !! mi) as [m |] eqn:Hm; [| exact Hms].
    apply Forall_insert; [exact Hms |].
    apply playerChooseDeck_invariant.
    exact (proj1 (Forall_lookup _ _) Hms mi m Hm).
Qed.

Lemma run_invariant calls (ms : Matches) :
  Forall pregame_until_full ms ->
  Forall pregame_until_full (fst (run' calls ms)).
Proof.
  revert ms. induction calls as [| [e inp] calls IH]; intros ms Hms.
  - exact Hms.
  - simpl. apply IH, step_invariant, Hms.
Qed.

(** A match that left the pre-game and deck-choice phases is out of reach of
    the calls. *)
Lemma step_keeps_started e inp (ms : Matches) mi m :
  ms !! mi = Some m -> phase m <> IDLE -> phase m <> CHOOSE_DECK ->
  state (step' e inp ms) !! mi = Some m.
Proof.
  intros Hm Hidle Hchoose. destruct inp as [h n d | c u mid inv | mj s d].
  - rewrite step_create. rewrite lookup_app_l; [exact Hm |].
    eapply lookup_lt_Some, Hm.
  - simpl.
    destruct (addPlayer_cases c u mid inv ms)
      as [[msg E] | (i & m0 & pl & m' & Hg & Hph & _ & _ & E & _)];
      rewrite E; [exact Hm |].
    destruct (getMatch_Some _ _ _ _ Hg) as [Hi _].
    rewrite list_lookup_insert_ne; [exact Hm |].
    intros ->. rewrite Hm in Hi. injection Hi as <-. contradiction.
  - rewrite step_chooseDeck. destruct (ms !! mj) as [m0 |] eqn:Hm0; [| exact Hm].
    destruct (decide (mj = mi)) as [-> | Hne].
    + rewrite Hm in Hm0. injection Hm0 as <-.
      destruct (getPlayer s m) as [p |] eqn:Hp.
      * rewrite (playerChooseDeck_ignored e s d m p Hp) by auto.
        change (state (?a, ?b, ?c)) with b. rewrite list_insert_id; assumption.
      * rewrite (playerChooseDeck_absent e s d m Hp).
        change (state (?a, ?b, ?c)) with b. rewrite list_insert_id; assumption.
    + rewrite list_lookup_insert_ne; [exact Hm | exact Hne].
Qed.

(** A match leaves the pre-game phase only by the join of a second player. *)
Lemma step_leaves_pregame e inp (ms : Matches) mi m m' :
  ms !! mi = Some m -> state (step' e inp ms) !! mi = Some m' ->
  phase m = IDLE -> phase m' <> IDLE ->
  phase m' = CHOOSE_DECK /\ is_Some (player1 m) /\ player2 m = None /\
  seated m' /\
  exists c u inv, inp = InJoin c u (id m) inv /\ inv = inviteId m.
Proof.
  intros Hm Hm' Hidle Hleft. destruct inp as [h n d | c u mid inv | mj s d].
  - rewrite step_create, lookup_app_l in Hm' by (eapply lookup_lt_Some, Hm).
    congruence.
  - simpl in Hm'.
    destruct (addPlayer_cases c u mid inv ms)
      as [[msg E] | (i & m0 & pl & m1 & Hg & Hph & Hinv & _ & E & Hcase)];
      rewrite E in Hm'; [change (state (?a, ?b, ?c)) with b in Hm'; congruence |].
    destruct (getMatch_Some _ _ _ _ Hg) as [Hi Hid].
    destruct (decide (i = mi)) as [-> | Hne];
      [| rewrite list_lookup_insert_ne in Hm' by exact Hne; congruence].
    rewrite list_lookup_insert_eq in Hm' by (eapply lookup_lt_Some, Hm).
    injection Hm' as <-. rewrite Hm in Hi. injection Hi as <-.
    destruct Hcase as [[_ ->] | (H1 & H2 & ->)]; [contradiction |].
    split; [reflexivity |]. split; [exact H1 |]. split; [exact H2 |].
    split; [split; simpl; eauto |].
    exists c, u, inv. rewrite Hid. auto.
  - rewrite step_chooseDeck in Hm'.
    destruct (ms !! mj) as [m0 |] eqn:Hm0; [| congruence].
    destruct (decide (mj = mi)) as [-> | Hne];
      [| rewrite list_lookup_insert_ne in Hm' by exact Hne; congruence].
    rewrite Hm in Hm0. injection Hm0 as <-.
    rewrite list_lookup_insert_eq in Hm' by (eapply lookup_lt_Some, Hm).
    injection Hm' as <-. exfalso. apply Hleft.
    destruct (getPlayer s m) as [p |] eqn:Hp.
    + rewrite (playerChooseDeck_ignored e s d m p Hp); [exact Hidle |].
      left. congruence.
    + rewrite (playerChooseDeck_absent e s d m Hp). exact Hidle.
Qed.

Lemma run_keeps_started calls (ms : Matches) mi m :
  ms !! mi = Some m -> phase m <> IDLE -> phase m <> CHOOSE_DECK ->
  fst (run' calls ms) !! mi = Some m.
Proof.
  revert ms. induction calls as [| [e inp] calls IH]; intros ms Hm H1 H2.
  - exact Hm.
  - simpl. apply IH; [| exact H1 | exact H2].
    apply step_keeps_started; assumption.
Qed.

(** The join of the second player opens the choice of decks. *)
Lemma addPlayer_second c u mid inv (ms : Matches) i m :
  getMatch mid ms = Some (i, m) -> phase m = IDLE -> inv = inviteId m ->
  is_Some (player1 m) -> player2 m = None ->
  exists m',
    state (addPlayer findDecks c u mid inv ms) !! i = Some m' /\
    phase m' = CHOOSE_DECK /\ seated m' /\ player1 m' = player1 m.
Proof.
  intros Hg Hph Hinv H1 H2.
  destruct (addPlayer_cases c u mid inv ms)
    as [[msg E] | (i' & m0 & pl & m' & Hg' & _ & _ & _ & E & Hcase)].
  - exfalso. revert E. unfold addPlayer.
    rewrite (bind_returned get _ ms ms ms []) by reflexivity.
    rewrite prepend_nil, Hg.
    rewrite bool_decide_eq_false_2 by (intros Hn; apply Hn, Hph).
    rewrite bool_decide_eq_false_2 by (intros Hn; apply Hn, Hinv).
    destruct H1 as [p1 H1]. rewrite H1, H2. simpl.
    erewrite bind_returned by reflexivity.
    unfold prepend, sent. simpl. intros E. injection E as _ E. discriminate.
  - rewrite Hg in Hg'. injection Hg' as <- <-.
    destruct (getMatch_Some _ _ _ _ Hg) as [Hi _].
    destruct Hcase as [[Hn _] | (_ & _ & ->)];
      [destruct H1 as [p1 H1]; congruence |].
    eexists. rewrite E, list_lookup_insert_eq by (eapply lookup_lt_Some, Hi).
    split; [reflexivity |]. split; [reflexivity |].
    split; [split; simpl; eauto | reflexivity].
Qed.

End Calls.

(** ** The draw step *)

(** C1. In the draw step of a match whose active player's deck is empty,
    neither the hand nor the deck is mutated, but the match does not go to
    a loss state either: the step returns with the match in DRAW_STEP, the
    phase it entered, nothing else changed and nothing else reported.  (A
    draw from a non-empty deck is [drawStep_draws_one] and
    [drawStep_sizes].) *)
Theorem drawStep_empty_deck_no_loss (m : IMatch) (s : Slot) (p : IPlayer) :
  playerTurn m = Some s ->
  getPlayer s m = Some p ->
  deck p = Some [] ->
  drawStep m = (Returned tt, set_phase DRAW_STEP m, [EvSetPhase DRAW_STEP]).
Proof.
  intros Ht Hp Hd. unfold drawStep.
  fx_step. fx_step. simpl playerTurn. rewrite Ht. fx_step.
  rewrite getPlayer_set_phase, Hp. fx_step. rewrite Hd. fx_step.
  change (length (@nil ICard) <? 1)%nat with true. reflexivity.
Qed.

Lemma drawStep_empty_deck_no_loss_witness :
  drawStep (exampleTurn (Some [])) =
    (Returned tt, set_phase DRAW_STEP (exampleTurn (Some [])),
     [EvSetPhase DRAW_STEP]).
Proof.
  exact (drawStep_empty_deck_no_loss (exampleTurn (Some [])) P1
           (exampleActive (Some [])) eq_refl eq_refl eq_refl).
Defined.

(** Two players who join a match and choose a deck without cards: the match
    starts and stays in the draw step of the first turn. *)
Example empty_decks_stop_in_draw :
  (phase <$> exampleRun (exampleEmptyCalls (3 # 4))) = [DRAW_STEP] /\
  (playerTurn <$> exampleRun (exampleEmptyCalls (3 # 4))) = [Some P1].
Proof. split; reflexivity. Qed.

(** ** The untap step *)

(** C4. After the untap step, every card in the battle zone and in the mana
    zone of the active player is untapped, whatever its tapped flag was
    before: each zone holds the cards it held, with the flag cleared. *)
Theorem untapStep_untaps_all (m : IMatch) (s : Slot) (p : IPlayer) :
  playerTurn m = Some s ->
  getPlayer s m = Some p ->
  exists p',
    getPlayer s (state (untapStep m)) = Some p' /\
    battlezone p' = (set_tapped false <$> battlezone p) /\
    manazone p' = (set_tapped false <$> manazone p) /\
    Forall untapped (battlezone p') /\
    Forall untapped (manazone p').
Proof.
  intros Ht Hp. rewrite (untapStep_run m s p Ht Hp), state_prepend.
  rewrite startTurnStep_run, state_prepend.
  destruct (drawStep_keeps_zones
              (set_phase START_TURN_STEP
                 (putPlayer s (untapAll p) (set_phase UNTAP_STEP m)))
              s (untapAll p))
    as (p' & Hp' & Hb & Hm & _).
  { simpl. rewrite playerTurn_putPlayer. exact Ht. }
  { rewrite getPlayer_set_phase. apply getPlayer_putPlayer. }
  exists p'. rewrite Hb, Hm. simpl.
  repeat split; auto; apply Forall_fmap, Forall_true; intros c; reflexivity.
Qed.

Lemma untapStep_untaps_all_witness :
  exists p',
    getPlayer P1 (state (untapStep (exampleTurn (Some exampleDeck)))) = Some p' /\
    battlezone p' = [exampleCreature "x" false; exampleCreature "y" false] /\
    manazone p' = [set_zone MANAZONE (exampleCreature "z" false)] /\
    Forall untapped (battlezone p') /\
    Forall untapped (manazone p').
Proof.
  exact (untapStep_untaps_all (exampleTurn (Some exampleDeck)) P1
           (exampleActive (Some exampleDeck)) eq_refl eq_refl).
Defined.

(** ** The start-of-turn step *)

(** C5. The start-of-turn step advances to the draw step at once, but it
    fires no hook: it reports its phase change and those of the draw and
    charge steps, makes no call on any card, and leaves the creatures in the
    battle zone of the active player as they were. *)
Theorem startTurnStep_dispatches_nothing (m : IMatch) (s : Slot) (p : IPlayer) :
  playerTurn m = Some s ->
  getPlayer s m = Some p ->
  (exists rest,
     sent (startTurnStep m) =
       EvSetPhase START_TURN_STEP :: EvSetPhase DRAW_STEP :: rest /\
     (rest = [] \/ rest = [EvSetPhase CHARGE_STEP])) /\
  cardEvents (sent (startTurnStep m)) = [] /\
  exists p',
    getPlayer s (state (startTurnStep m)) = Some p' /\
    battlezone p' = battlezone p.
Proof.
  intros Ht Hp. rewrite startTurnStep_run, sent_prepend, state_prepend.
  destruct (drawStep_sent_phases (set_phase START_TURN_STEP m))
    as (rest & E & Hr).
  rewrite E. split; [| split].
  - exists rest. auto.
  - destruct Hr as [-> | ->]; reflexivity.
  - destruct (drawStep_keeps_zones (set_phase START_TURN_STEP m) s p)
      as (p' & Hp' & Hb & _);
      [exact Ht | rewrite getPlayer_set_phase; exact Hp |].
    exists p'. auto.
Qed.

Lemma startTurnStep_dispatches_nothing_witness :
  (exists rest,
     sent (startTurnStep (exampleTurn (Some exampleDeck))) =
       EvSetPhase START_TURN_STEP :: EvSetPhase DRAW_STEP :: rest /\
     (rest = [] \/ rest = [EvSetPhase CHARGE_STEP])) /\
  cardEvents (sent (startTurnStep (exampleTurn (Some exampleDeck)))) = [] /\
  exists p',
    getPlayer P1 (state (startTurnStep (exampleTurn (Some exampleDeck))))
      = Some p' /\
    battlezone p' = [exampleCreature "x" true; exampleCreature "y" false].
Proof.
  exact (startTurnStep_dispatches_nothing (exampleTurn (Some exampleDeck)) P1
           (exampleActive (Some exampleDeck)) eq_refl eq_refl).
Defined.

(** ** Starting a match *)

(** C3. [tryStartMatch] returns false and leaves the match untouched when a
    player is absent or has no deck.  When both players have a deck (and the
    deck set-up leaves the player who begins one, empty or not) it returns
    true, with [playerTurn] set to one of the two players, and the match is
    the one [beginTurn] leaves when called on the match set up. *)
Theorem tryStartMatch_starts_or_refuses
    (setupPlayer : IPlayer -> IPlayer) (r : Q) (m : IMatch) :
  (player1 m = None \/ player1 m ≫= deck = None \/
   player2 m = None \/ player2 m ≫= deck = None ->
   tryStartMatch setupPlayer r m = (Returned false, m, [])) /\
  (forall p1 p2,
     player1 m = Some p1 -> player2 m = Some p2 ->
     is_Some (deck p1) -> is_Some (deck p2) ->
     is_Some (deck (setupPlayer (if gt_half r then p1 else p2))) ->
     let res := tryStartMatch setupPlayer r m in
     let m0 := started setupPlayer r p1 p2 m in
     outcome res = Returned true /\
     (exists s,
        playerTurn (state res) = Some s /\ playerTurn m0 = Some s /\
        s = (if gt_half r then P1 else P2) /\
        is_Some (getPlayer s (state res))) /\
     state res = state (beginTurn m0) /\
     sent res =
       EvStateUpdate [client (setupPlayer p1); client (setupPlayer p2)]
         :: sent (beginTurn m0)).
Proof.
  split; [apply tryStartMatch_refuses |].
  intros p1 p2 H1 H2 Hd1 Hd2 Hs res m0. subst res.
  rewrite (tryStartMatch_run setupPlayer r m p1 p2 H1 H2 Hd1 Hd2).
  cbv zeta. fold m0.
  destruct (started_active setupPlayer r p1 p2 m) as [Ht Hp]. fold m0 in Ht, Hp.
  destruct (beginTurn_returns m0 _ _ Ht Hp Hs) as (Ho & Ht' & Hp').
  change (outcome (?a, ?b, ?c)) with a. change (state (?a, ?b, ?c)) with b.
  change (sent (?a, ?b, ?c)) with c.
  rewrite Ho. split; [reflexivity |]. split; [| split; reflexivity].
  exists (if gt_half r then P1 else P2). auto.
Qed.

Lemma tryStartMatch_starts_or_refuses_witness :
  tryStartMatch exampleSetup (3 # 4) exampleWaiting
    = (Returned false, exampleWaiting, []) /\
  outcome (tryStartMatch exampleSetup (3 # 4) exampleReady) = Returned true.
Proof.
  split.
  - apply (proj1 (tryStartMatch_starts_or_refuses exampleSetup (3 # 4)
                    exampleWaiting)).
    right. right. right. reflexivity.
  - apply (proj2 (tryStartMatch_starts_or_refuses exampleSetup (3 # 4)
                    exampleReady)
             (examplePlayer (Some exampleDeck) [] [])
             (examplePlayer (Some exampleDeck) [] []));
      first [reflexivity | simpl; eauto].
Defined.

(** C2. A match started with both decks chosen, whose active player has a
    card to draw, goes through BeginTurn, Untap, StartOfTurn and Draw in that
    order within the one call, and ends in the charge step: the change to
    CHARGE_STEP is the last thing the call reports.  The match then stays as
    it is through every later call of the module (matches created, players
    joining, decks chosen), until code that acts for a player moves it. *)
Theorem started_match_parks_in_charge
    (getCard : string -> ICard) (cardSetup : ICard -> ICard)
    (setupPlayer : IPlayer -> IPlayer) (findDecks : string -> list IDeck)
    (r : Q) (ms : Matches) (mi : nat) (m : IMatch) (p1 p2 : IPlayer)
    (c : ICard) (d : list ICard) :
  ms !! mi = Some m ->
  player1 m = Some p1 -> player2 m = Some p2 ->
  is_Some (deck p1) -> is_Some (deck p2) ->
  deck (setupPlayer (if gt_half r then p1 else p2)) = Some (c :: d) ->
  let res := atMatch mi (tryStartMatch setupPlayer r) ms in
  outcome res = Returned true /\
  phases (sent res) =
    [BEGIN_TURN_STEP; UNTAP_STEP; START_TURN_STEP; DRAW_STEP; CHARGE_STEP] /\
  last (sent res) = Some (EvSetPhase CHARGE_STEP) /\
  exists m',
    state res !! mi = Some m' /\ phase m' = CHARGE_STEP /\
    forall calls,
      fst (run getCard cardSetup setupPlayer findDecks calls (state res)) !! mi
        = Some m'.
Proof.
  intros Hm H1 H2 Hd1 Hd2 Hd res. subst res.
  destruct (tryStartMatch_trace setupPlayer r m p1 p2 c d H1 H2 Hd1 Hd2 Hd)
    as (Ho & Hph & Hl & Hst).
  rewrite (atMatch_run _ _ _ _ Hm).
  change (outcome (?a, ?b, ?c)) with a. change (state (?a, ?b, ?c)) with b.
  change (sent (?a, ?b, ?c)) with c.
  split; [exact Ho |]. split; [exact Hph |]. split; [exact Hl |].
  eexists. split; [apply list_lookup_insert_eq; eapply lookup_lt_Some, Hm |].
  split; [exact Hst |].
  intros calls. apply run_keeps_started.
  - apply list_lookup_insert_eq. eapply lookup_lt_Some, Hm.
  - rewrite Hst. discriminate.
  - rewrite Hst. discriminate.
Qed.

Lemma started_match_parks_in_charge_witness :
  phases (sent (atMatch 0 (tryStartMatch exampleSetup (3 # 4)) [exampleReady]))
    = [BEGIN_TURN_STEP; UNTAP_STEP; START_TURN_STEP; DRAW_STEP; CHARGE_STEP].
Proof.
  eapply (started_match_parks_in_charge exampleCard (fun c => c) exampleSetup
            exampleDecks (3 # 4) [exampleReady] 0 exampleReady
            (examplePlayer (Some exampleDeck) [] [])
            (examplePlayer (Some exampleDeck) [] []));
    first [reflexivity | simpl; eauto].
Defined.

(** ** Joining and choosing a deck *)

(** C6. A call of [addPlayer] for an unknown match id, for a match that is
    not in the IDLE phase, with an invite id that is not the one of the
    match, or for a match with both players connected, sends one error to
    the connecting client and leaves every match as it was. *)
Theorem addPlayer_rejects
    (findDecks : string -> list IDeck) (client : Client) (user : IUser)
    (matchId inviteId : string) (ms : Matches) :
  getMatch matchId ms = None \/
  (exists i m,
     getMatch matchId ms = Some (i, m) /\
     (phase m <> IDLE \/ inviteId <> Server.inviteId m \/ seated m)) ->
  exists msg,
    addPlayer findDecks client user matchId inviteId ms
      = (Returned tt, ms, [EvSendError client msg]).
Proof.
  intros H.
  destruct (addPlayer_cases findDecks client user matchId inviteId ms)
    as [E | (i & m & pl & m' & Hg & Hph & Hinv & _ & _ & Hcase)];
    [exact E | exfalso].
  destruct H as [H | (i' & m0 & Hg' & H)]; [congruence |].
  rewrite Hg in Hg'. injection Hg' as <- <-.
  destruct H as [H | [H | [[p1 H1] [p2 H2]]]]; [contradiction .. |].
  destruct Hcase as [[Hn _] | (_ & Hn & _)]; congruence.
Qed.

Lemma addPlayer_rejects_witness :
  exists msg,
    addPlayer exampleDecks 3%nat {| uid := "u3" |} "A" "B"
      (exampleRun (exampleCalls (1 # 4)))
    = (Returned tt, exampleRun (exampleCalls (1 # 4)), [EvSendError 3%nat msg]).
Proof.
  apply (addPlayer_rejects exampleDecks 3%nat {| uid := "u3" |} "A" "B"
           (exampleRun (exampleCalls (1 # 4)))).
  right. eexists 0%nat, _. split; [vm_compute; reflexivity |].
  left. vm_compute. discriminate.
Defined.

(** C10. A call of [playerChooseDeck] for a player whose match is not in the
    CHOOSE_DECK phase, or who has a deck already, returns without changing
    the player, the match or any other match, and sends nothing; so no
    second call, with whatever deck id, replaces a deck once set. *)
Theorem playerChooseDeck_once
    (getCard : string -> ICard) (cardSetup : ICard -> ICard)
    (setupPlayer : IPlayer -> IPlayer) (findDecks : string -> list IDeck)
    (e : Entropy) (s : Slot) (deckId : string) (m : IMatch) (p : IPlayer) :
  getPlayer s m = Some p ->
  phase m <> CHOOSE_DECK \/ is_Some (deck p) ->
  playerChooseDeck getCard cardSetup setupPlayer e s deckId m
    = (Returned tt, m, []) /\
  forall (ms : Matches) mi,
    ms !! mi = Some m ->
    step getCard cardSetup setupPlayer findDecks e (InChooseDeck mi s deckId) ms
      = (Returned tt, ms, []).
Proof.
  intros Hp H.
  pose proof (playerChooseDeck_ignored getCard cardSetup setupPlayer
                e s deckId m p Hp H) as E.
  split; [exact E |]. intros ms mi Hm. simpl.
  rewrite (atMatch_run _ _ _ _ Hm), E.
  change (outcome (?a, ?b, ?c)) with a. change (state (?a, ?b, ?c)) with b.
  change (sent (?a, ?b, ?c)) with c.
  rewrite list_insert_id by exact Hm. reflexivity.
Qed.

Lemma playerChooseDeck_once_witness :
  playerChooseDeck exampleCard (fun c => c) exampleSetup
    (exampleEntropy (1 # 4)) P1 "d1" exampleReady
    = (Returned tt, exampleReady, []).
Proof.
  apply (playerChooseDeck_once exampleCard (fun c => c) exampleSetup
           exampleDecks (exampleEntropy (1 # 4)) P1 "d1" exampleReady
           (examplePlayer (Some exampleDeck) [] []) eq_refl).
  right. simpl. eauto.
Defined.

(** ** The pre-game phase *)

(** C7. In every state the module reaches from no matches, a match with at
    most one player connected is in the pre-game phase IDLE.  A call moves a
    match out of IDLE only by seating its second player, and then the phase
    is CHOOSE_DECK; and the join of a second player (right invite id, first
    player connected) does move it to CHOOSE_DECK. *)
Theorem pregame_until_second_player
    (getCard : string -> ICard) (cardSetup : ICard -> ICard)
    (setupPlayer : IPlayer -> IPlayer) (findDecks : string -> list IDeck)
    (calls : list (Entropy * Input)) :
  let ms := fst (run getCard cardSetup setupPlayer findDecks calls []) in
  (forall m,
     m ∈ ms -> player1 m = None \/ player2 m = None -> phase m = IDLE) /\
  (forall e inp mi m m',
     ms !! mi = Some m ->
     state (step getCard cardSetup setupPlayer findDecks e inp ms) !! mi
       = Some m' ->
     phase m = IDLE -> phase m' <> IDLE ->
     phase m' = CHOOSE_DECK /\ is_Some (player1 m) /\ player2 m = None /\
     seated m' /\
     exists c u inv, inp = InJoin c u (id m) inv /\ inv = inviteId m) /\
  (forall c u mid inv i m,
     getMatch mid ms = Some (i, m) -> phase m = IDLE -> inv = inviteId m ->
     is_Some (player1 m) -> player2 m = None ->
     exists m',
       state (addPlayer findDecks c u mid inv ms) !! i = Some m' /\
       phase m' = CHOOSE_DECK /\ seated m' /\ player1 m' = player1 m).
Proof.
  intros ms. split; [| split].
  - intros m Hin.
    pose proof (run_invariant getCard cardSetup setupPlayer findDecks calls []
                  (Forall_nil_2 _)) as Hall.
    exact (proj1 (Forall_forall _ _) Hall m Hin).
  - intros e inp mi m m'. apply step_leaves_pregame.
  - intros c u mid inv i m. apply addPlayer_second.
Qed.

Lemma pregame_until_second_player_witness :
  (forall m,
     m ∈ exampleRun (exampleJoins (1 # 4)) ->
     player1 m = None \/ player2 m = None -> phase m = IDLE) /\
  exists m',
    state (addPlayer exampleDecks 2%nat {| uid := "u2" |} "A" "B"
             (exampleRun (take 2 (exampleJoins (1 # 4))))) !! 0%nat = Some m' /\
    phase m' = CHOOSE_DECK.
Proof.
  split.
  - apply (proj1 (pregame_until_second_player exampleCard (fun c => c)
                    exampleSetup exampleDecks (exampleJoins (1 # 4)))).
  - destruct (proj2 (proj2 (pregame_until_second_player exampleCard
                              (fun c => c) exampleSetup exampleDecks
                              (take 2 (exampleJoins (1 # 4)))))
                2%nat {| uid := "u2" |} "A" "B" 0%nat
                {| id := "A"; inviteId := "B"; name := "match";
                   description := ""; phase := IDLE;
                   player1 :=
                     Some {| user := {| uid := "u1" |}; client := 1%nat;
                             decks := exampleDecks "u1"; deck := None;
                             hand := []; shieldzone := []; manazone := [];
                             graveyard := []; battlezone := [];
                             hiddenzone := [] |};
                   player2 := None; playerTurn := None |}
                eq_refl eq_refl eq_refl (ex_intro _ _ eq_refl) eq_refl)
      as (m' & Hm' & Hph & _).
    exists m'. split; [exact Hm' | exact Hph].
Defined.

(** * Further properties of the match server *)

(** ** What the turn engine leaves alone *)

Section Closed.
Variable P : IMatch -> Prop.
Hypothesis P_set_phase : forall ph m, P m -> P (set_phase ph m).
Hypothesis P_putPlayer : forall s p m, P m -> P (putPlayer s p m).

Local Ltac closed_with leaf :=
  preserves_with
    ltac:(first
            [ leaf
            | apply preserves_modify; intros;
              first [apply P_set_phase | apply P_putPlayer]; assumption ]).

Lemma closed_setPhaseFx ph : preserves P (setPhaseFx ph).
Proof using P_set_phase. unfold setPhaseFx. closed_with fail. Qed.

Lemma closed_forOfZone z body : preserves P (forOfZone z body).
Proof using P_putPlayer.
  unfold forOfZone. closed_with fail.
  match goal with |- context [forOf ?b ?l] => destruct (forOf b l) end.
  closed_with fail.
Qed.

Lemma closed_moveCardToFx c to : preserves P (moveCardToFx c to).
Proof using P_putPlayer.
  intros m Hm.
  destruct (moveCardToFx_cases c to m) as [E | (s & p & from & _ & _ & _ & E)];
    rewrite E; [exact Hm | by apply P_putPlayer].
Qed.

Lemma closed_drawStep : preserves P drawStep.
Proof using P_set_phase P_putPlayer.
  unfold drawStep, drawCardsFx, chargeStep.
  closed_with ltac:(apply closed_setPhaseFx).
  match goal with |- context [if ?b then _ else _] => destruct b end;
    closed_with
      ltac:(first [apply closed_moveCardToFx | apply closed_setPhaseFx]).
Qed.

Lemma closed_beginTurn : preserves P beginTurn.
Proof using P_set_phase P_putPlayer.
  unfold beginTurn, untapStep, startTurnStep, stateUpdateFx.
  closed_with
    ltac:(first [apply closed_setPhaseFx | apply closed_forOfZone
                | apply closed_drawStep]).
Qed.

End Closed.

Section More.
Variable getCard : string -> ICard.
Variable cardSetup : ICard -> ICard.
Variable setupPlayer : IPlayer -> IPlayer.
Variable findDecks : string -> list IDeck.

Local Abbreviation step' := (step getCard cardSetup setupPlayer findDecks).
Local Abbreviation run' := (run getCard cardSetup setupPlayer findDecks).
Local Abbreviation choose := (playerChooseDeck getCard cardSetup setupPlayer).

(** ** The results of the calls, case by case *)

Lemma tryStartMatch_cases r m :
  tryStartMatch setupPlayer r m = (Returned false, m, []) \/
  exists p1 p2,
    player1 m = Some p1 /\ player2 m = Some p2 /\
    is_Some (deck p1) /\ is_Some (deck p2) /\
    tryStartMatch setupPlayer r m =
      (match outcome (beginTurn (started setupPlayer r p1 p2 m)) with
       | Returned _ => Returned true
       | Thrown err => Thrown err
       end,
       state (beginTurn (started setupPlayer r p1 p2 m)),
       EvStateUpdate [client (setupPlayer p1); client (setupPlayer p2)]
         :: sent (beginTurn (started setupPlayer r p1 p2 m))).
Proof.
  destruct (player1 m) as [p1 |] eqn:H1;
    [| left; apply tryStartMatch_refuses; auto].
  destruct (deck p1) as [d1 |] eqn:Hd1;
    [| left; apply tryStartMatch_refuses; rewrite H1; simpl; auto].
  destruct (player2 m) as [p2 |] eqn:H2;
    [| left; apply tryStartMatch_refuses; auto].
  destruct (deck p2) as [d2 |] eqn:Hd2;
    [| left; apply tryStartMatch_refuses; rewrite H2; simpl; auto].
  right. exists p1, p2.
  split; [reflexivity |]. split; [reflexivity |].
  split; [rewrite Hd1; eauto |]. split; [rewrite Hd2; eauto |].
  apply tryStartMatch_run; rewrite ?Hd1, ?Hd2; eauto.
Qed.

(** A deck id the player has no deck for. *)
Lemma choose_unknown e s d m p :
  getPlayer s m = Some p -> phase m = CHOOSE_DECK -> deck p = None ->
  List.find (fun x => bool_decide (deck_uid x = d)) (decks p) = None ->
  choose e s d m =
    (Returned tt, m,
     [EvSendWarning (client p) "You do not have the rights to use that deck"]).
Proof.
  intros Hp Hph Hd Hf. unfold playerChooseDeck. fx_step. rewrite Hp. fx_step.
  rewrite bool_decide_eq_false_2 by (intros Hn; apply Hn, Hph).
  rewrite Hd. simpl. rewrite Hf. reflexivity.
Qed.

(** A deck id the player has a deck for: the deck is built, and the start of
    the match is tried. *)
Lemma choose_known e s d m p dk :
  getPlayer s m = Some p -> phase m = CHOOSE_DECK -> deck p = None ->
  List.find (fun x => bool_decide (deck_uid x = d)) (decks p) = Some dk ->
  choose e s d m =
    (match outcome (tryStartMatch setupPlayer (random e)
                      (putPlayer s
                         (set_deck (Some (dealt getCard cardSetup e s (cards dk))) p)
                         m)) with
     | Returned _ => Returned tt
     | Thrown err => Thrown err
     end,
     state (tryStartMatch setupPlayer (random e)
              (putPlayer s
                 (set_deck (Some (dealt getCard cardSetup e s (cards dk))) p) m)),
     sent (tryStartMatch setupPlayer (random e)
             (putPlayer s
                (set_deck (Some (dealt getCard cardSetup e s (cards dk))) p) m))).
Proof.
  intros Hp Hph Hd Hf. unfold playerChooseDeck. fx_step. rewrite Hp. fx_step.
  rewrite bool_decide_eq_false_2 by (intros Hn; apply Hn, Hph).
  rewrite Hd. simpl. rewrite Hf. fx_step. fold (dealt getCard cardSetup e s (cards dk)).
  unfold bind, ret, outcome, state, sent.
  destruct (tryStartMatch _ _ _) as [[[b | err] m1] l1]; simpl;
    rewrite ?app_nil_r; reflexivity.
Qed.

(** A call of [playerChooseDeck] leaves the match as it is, or sets a deck
    and tries the start. *)
Lemma choose_cases e s d m :
  state (choose e s d m) = m /\ errors (sent (choose e s d m)) = [] \/
  exists p dk,
    getPlayer s m = Some p /\ phase m = CHOOSE_DECK /\ deck p = None /\
    choose e s d m =
      (match outcome (tryStartMatch setupPlayer (random e)
                        (putPlayer s
                           (set_deck
                              (Some (dealt getCard cardSetup e s (cards dk))) p)
                           m)) with
       | Returned _ => Returned tt
       | Thrown err => Thrown err
       end,
       state (tryStartMatch setupPlayer (random e)
                (putPlayer s
                   (set_deck (Some (dealt getCard cardSetup e s (cards dk))) p)
                   m)),
       sent (tryStartMatch setupPlayer (random e)
               (putPlayer s
                  (set_deck (Some (dealt getCard cardSetup e s (cards dk))) p)
                  m))).
Proof.
  destruct (getPlayer s m) as [p |] eqn:Hp;
    [| left; rewrite (playerChooseDeck_absent _ _ _ e s d m Hp); auto].
  destruct (decide (phase m = CHOOSE_DECK)) as [Hph | Hph];
    [| left; rewrite (playerChooseDeck_ignored _ _ _ e s d m p Hp); auto].
  destruct (deck p) as [dk0 |] eqn:Hd;
    [left; rewrite (playerChooseDeck_ignored _ _ _ e s d m p Hp);
       [auto | right; rewrite Hd; eauto] |].
  destruct (List.find (fun x => bool_decide (deck_uid x = d)) (decks p))
    as [dk |] eqn:Hf.
  - right. exists p, dk. repeat split; try assumption.
    by apply choose_known.
  - left. rewrite (choose_unknown e s d m p Hp Hph Hd Hf). auto.
Qed.

(** ** Creating and finding matches *)

(** X1. [createMatch] appends a match in the pre-game phase with no player,
    and returns it.  [getMatch] then finds, for any id, what it found
    before; the new match is found by its id only when no older match has
    that id, for the first match with an id is the one found. *)
Theorem getMatch_createMatch (e : Entropy) (h n d : string) (ms : Matches)
    (i : string) :
  let m := {| id := shortid e 0; inviteId := shortid e 1; name := n;
              description := d; phase := IDLE; player1 := None;
              player2 := None; playerTurn := None |} in
  createMatch e h n d ms = (Returned m, ms ++ [m], []) /\
  getMatch i (state (createMatch e h n d ms)) =
    match getMatch i ms with
    | Some r => Some r
    | None => if decide (shortid e 0 = i) then Some (length ms, m) else None
    end.
Proof.
  intros m. split; [reflexivity |].
  change (state (createMatch e h n d ms)) with (ms ++ [m]).
  unfold getMatch. destruct (list_find (fun x => id x = i) ms) as [[k x] |] eqn:E.
  - by apply list_find_app_l.
  - rewrite list_find_app_r by exact E. csimpl.
    destruct (decide (shortid e 0 = i)) as [Hi | Hi]; reflexivity.
Qed.

(** ** Joining *)

Lemma addPlayer_first_run c u mid inv (ms : Matches) i m :
  getMatch mid ms = Some (i, m) -> phase m = IDLE -> inv = inviteId m ->
  player1 m = None ->
  addPlayer findDecks c u mid inv ms =
    (Returned tt, <[i := set_player1 (Some (joining findDecks c u)) m]> ms,
     [EvAttach c P1]).
Proof.
  intros Hg Hph Hinv H1. destruct (getMatch_Some _ _ _ _ Hg) as [Hi _].
  unfold addPlayer. rewrite (bind_returned get _ ms ms ms []) by reflexivity.
  rewrite prepend_nil, Hg.
  rewrite bool_decide_eq_false_2 by (intros Hn; apply Hn, Hph).
  rewrite bool_decide_eq_false_2 by (intros Hn; apply Hn, Hinv).
  rewrite H1. simpl. fx_step. rewrite (atMatch_run _ _ _ _ Hi). reflexivity.
Qed.

Lemma addPlayer_second_run c u mid inv (ms : Matches) i m p1 :
  getMatch mid ms = Some (i, m) -> phase m = IDLE -> inv = inviteId m ->
  player1 m = Some p1 -> player2 m = None ->
  addPlayer findDecks c u mid inv ms =
    (Returned tt,
     <[i := set_phase CHOOSE_DECK (set_player2 (Some (joining findDecks c u)) m)]> ms,
     [EvAttach c P2; EvSendChooseDeck (client p1) (decks p1);
      EvSendChooseDeck c (findDecks (uid u))]).
Proof.
  intros Hg Hph Hinv H1 H2. destruct (getMatch_Some _ _ _ _ Hg) as [Hi _].
  unfold addPlayer. rewrite (bind_returned get _ ms ms ms []) by reflexivity.
  rewrite prepend_nil, Hg.
  rewrite bool_decide_eq_false_2 by (intros Hn; apply Hn, Hph).
  rewrite bool_decide_eq_false_2 by (intros Hn; apply Hn, Hinv).
  rewrite H1, H2. simpl. fx_step. rewrite (atMatch_run _ _ _ _ Hi).
  unfold prepend, outcome, state, sent, bind, modify, get. simpl.
  rewrite H1. reflexivity.
Qed.

(** X2. The first player to join a match in the pre-game phase, with the
    invite id of the match, takes the first slot with no deck and empty
    zones; the phase stays IDLE, the other fields and the other matches stay
    as they are, and no choice of decks is offered yet. *)
Theorem addPlayer_first (c : Client) (u : IUser) (mid inv : string)
    (ms : Matches) (i : nat) (m : IMatch) :
  getMatch mid ms = Some (i, m) ->
  phase m = IDLE ->
  inv = inviteId m ->
  player1 m = None ->
  exists m',
    addPlayer findDecks c u mid inv ms
      = (Returned tt, <[i := m']> ms, [EvAttach c P1]) /\
    player1 m' = Some (joining findDecks c u) /\
    player2 m' = player2 m /\ phase m' = IDLE /\
    playerTurn m' = playerTurn m /\ header m' = header m /\
    (forall j, j <> i -> <[i := m']> ms !! j = ms !! j) /\
    length (<[i := m']> ms) = length ms.
Proof.
  intros Hg Hph Hinv H1. eexists. split; [by apply addPlayer_first_run |].
  repeat split; try assumption.
  - intros j Hj. by apply list_lookup_insert_ne.
  - apply length_insert.
Qed.

(** X3. The second player to join takes the second slot; the match goes to
    CHOOSE_DECK, the first player is left as he was, and the choice of decks
    is offered to the first player and then to the second, each with his own
    decks. *)
Theorem addPlayer_second_offers_decks (c : Client) (u : IUser)
    (mid inv : string) (ms : Matches) (i : nat) (m : IMatch) (p1 : IPlayer) :
  getMatch mid ms = Some (i, m) ->
  phase m = IDLE ->
  inv = inviteId m ->
  player1 m = Some p1 ->
  player2 m = None ->
  exists m',
    addPlayer findDecks c u mid inv ms
      = (Returned tt, <[i := m']> ms,
         [EvAttach c P2; EvSendChooseDeck (client p1) (decks p1);
          EvSendChooseDeck c (findDecks (uid u))]) /\
    player1 m' = Some p1 /\
    player2 m' = Some (joining findDecks c u) /\
    phase m' = CHOOSE_DECK /\
    playerTurn m' = playerTurn m /\ header m' = header m /\
    (forall j, j <> i -> <[i := m']> ms !! j = ms !! j).
Proof.
  intros Hg Hph Hinv H1 H2. eexists.
  split; [by apply (addPlayer_second_run c u mid inv ms i m p1) |].
  repeat split; try assumption.
  intros j Hj. by apply list_lookup_insert_ne.
Qed.

(** X4. The guards of [addPlayer] are tried in order, and the message names
    the first that fails: an unknown match id, then a match past the pre-game
    phase (whatever the invite id), then a wrong invite id, then a match
    with both players. *)
Theorem addPlayer_error_messages (c : Client) (u : IUser) (mid inv : string)
    (ms : Matches) :
  (getMatch mid ms = None ->
   addPlayer findDecks c u mid inv ms
     = (Returned tt, ms, [EvSendError c "Match is no longer available"])) /\
  (forall i m,
     getMatch mid ms = Some (i, m) ->
     (phase m <> IDLE ->
      addPlayer findDecks c u mid inv ms
        = (Returned tt, ms,
           [EvSendError c "Match is currently in progress"])) /\
     (phase m = IDLE -> inv <> inviteId m ->
      addPlayer findDecks c u mid inv ms
        = (Returned tt, ms, [EvSendError c "Invite id does not match"])) /\
     (phase m = IDLE -> inv = inviteId m -> seated m ->
      addPlayer findDecks c u mid inv ms
        = (Returned tt, ms,
           [EvSendError c "Both players have already connected"]))).
Proof.
  split.
  - intros Hg. unfold addPlayer.
    rewrite (bind_returned get _ ms ms ms []) by reflexivity.
    rewrite prepend_nil, Hg. reflexivity.
  - intros i m Hg. split; [| split].
    + intros Hph. unfold addPlayer.
      rewrite (bind_returned get _ ms ms ms []) by reflexivity.
      rewrite prepend_nil, Hg.
      rewrite bool_decide_eq_true_2 by exact Hph. reflexivity.
    + intros Hph Hinv. unfold addPlayer.
      rewrite (bind_returned get _ ms ms ms []) by reflexivity.
      rewrite prepend_nil, Hg.
      rewrite bool_decide_eq_false_2 by (intros Hn; apply Hn, Hph).
      rewrite bool_decide_eq_true_2 by exact Hinv. reflexivity.
    + intros Hph Hinv [[p1 H1] [p2 H2]]. unfold addPlayer.
      rewrite (bind_returned get _ ms ms ms []) by reflexivity.
      rewrite prepend_nil, Hg.
      rewrite bool_decide_eq_false_2 by (intros Hn; apply Hn, Hph).
      rewrite bool_decide_eq_false_2 by (intros Hn; apply Hn, Hinv).
      rewrite H1, H2. reflexivity.
Qed.

(** ** Choosing a deck *)

(** X5. A player who, during the choice of decks, asks for a deck id that is
    not among his decks gets a warning, he alone; his deck stays unset, and
    neither his match nor any other changes. *)
Theorem playerChooseDeck_unknown_deck (e : Entropy) (s : Slot) (d : string)
    (m : IMatch) (p : IPlayer) :
  getPlayer s m = Some p ->
  phase m = CHOOSE_DECK ->
  deck p = None ->
  (forall dk, dk ∈ decks p -> deck_uid dk <> d) ->
  choose e s d m =
    (Returned tt, m,
     [EvSendWarning (client p) "You do not have the rights to use that deck"]) /\
  forall (ms : Matches) mi,
    ms !! mi = Some m ->
    step' e (InChooseDeck mi s d) ms =
      (Returned tt, ms,
       [EvSendWarning (client p) "You do not have the rights to use that deck"]).
Proof.
  intros Hp Hph Hd Hno.
  assert (Hf : List.find (fun x => bool_decide (deck_uid x = d)) (decks p) = None).
  { destruct (List.find _ (decks p)) as [dk |] eqn:E; [| reflexivity].
    apply List.find_some in E. destruct E as [Hin Hid].
    apply bool_decide_eq_true in Hid.
    exfalso. exact (Hno dk (proj2 (list_elem_of_In _ _) Hin) Hid). }
  pose proof (choose_unknown e s d m p Hp Hph Hd Hf) as E.
  split; [exact E |]. intros ms mi Hm. simpl.
  rewrite (atMatch_run _ _ _ _ Hm), E.
  change (outcome (?a, ?b, ?c)) with a. change (state (?a, ?b, ?c)) with b.
  change (sent (?a, ?b, ?c)) with c.
  rewrite list_insert_id by exact Hm. reflexivity.
Qed.

(** X6. The first of the two players to choose a deck gets one card per card
    id of the stored deck, in the order of the ids, each owned by him, with
    the identifier generated for its place and untapped before its set-up;
    the match stays in CHOOSE_DECK, nothing is sent, and the other player is
    left as he was. *)
Theorem playerChooseDeck_first_choice (e : Entropy) (s : Slot) (d : string)
    (m : IMatch) (p : IPlayer) (dk : IDeck) :
  getPlayer s m = Some p ->
  phase m = CHOOSE_DECK ->
  deck p = None ->
  List.find (fun x => bool_decide (deck_uid x = d)) (decks p) = Some dk ->
  getPlayer (other s) m ≫= deck = None ->
  choose e s d m =
    (Returned tt,
     putPlayer s (set_deck (Some (dealt getCard cardSetup e s (cards dk))) p) m,
     []) /\
  length (dealt getCard cardSetup e s (cards dk)) = length (cards dk) /\
  (forall i cid,
     cards dk !! i = Some cid ->
     dealt getCard cardSetup e s (cards dk) !! i =
       Some (cardSetup
               (set_tapped false
                  (set_virtualId (shortid e i)
                     (set_player (Some s) (getCard cid)))))) /\
  getPlayer (other s)
    (putPlayer s (set_deck (Some (dealt getCard cardSetup e s (cards dk))) p) m)
    = getPlayer (other s) m.
Proof.
  intros Hp Hph Hd Hf Ho.
  split; [| split; [| split]].
  - rewrite (choose_known e s d m p dk Hp Hph Hd Hf).
    rewrite tryStartMatch_refuses; [reflexivity |].
    destruct s; simpl in *.
    + right. right.
      destruct (player2 m) as [p2 |]; simpl in *; [right; exact Ho | left; reflexivity].
    + destruct (player1 m) as [p1 |]; simpl in *; [right; left; exact Ho | left; reflexivity].
  - unfold dealt, createDeck. rewrite length_imap, length_fmap. reflexivity.
  - intros i cid Hi. unfold dealt, createDeck.
    rewrite list_lookup_imap, list_lookup_fmap, Hi. reflexivity.
  - destruct s; reflexivity.
Qed.

(** ** The states the module reaches *)

Lemma beginTurn_rests m s p :
  playerTurn m = Some s -> getPlayer s m = Some p ->
  (phase (state (beginTurn m)) = DRAW_STEP \/
   phase (state (beginTurn m)) = CHARGE_STEP) /\
  playerTurn (state (beginTurn m)) = Some s.
Proof.
  intros Ht Hp. rewrite (beginTurn_to_draw m s p Ht Hp), state_prepend.
  set (m1 := set_phase START_TURN_STEP (putPlayer s (untapAll (resolveAll p)) m)).
  assert (Ht1 : playerTurn m1 = Some s)
    by (unfold m1; simpl; rewrite playerTurn_putPlayer; exact Ht).
  assert (Hp1 : getPlayer s m1 = Some (untapAll (resolveAll p)))
    by (unfold m1; rewrite getPlayer_set_phase; apply getPlayer_putPlayer).
  destruct (drawStep_keeps_zones m1 s _ Ht1 Hp1) as (p' & _ & _ & _ & Ht').
  split; [| exact Ht'].
  destruct (deck (untapAll (resolveAll p))) as [[| c d] |] eqn:Hd.
  - rewrite (drawStep_stops m1 s _ Ht1 Hp1 Hd). left. reflexivity.
  - rewrite (drawStep_nonempty m1 s _ c d Ht1 Hp1 Hd). right. reflexivity.
  - rewrite (drawStep_no_deck m1 s _ Ht1 Hp1 Hd). left. reflexivity.
Qed.

Lemma started_state r m p1 p2 :
  player1 m = Some p1 -> player2 m = Some p2 ->
  let m' := state (beginTurn (started setupPlayer r p1 p2 m)) in
  (phase m' = DRAW_STEP \/ phase m' = CHARGE_STEP) /\
  playerTurn m' = Some (if gt_half r then P1 else P2) /\
  seated m'.
Proof.
  intros H1 H2 m'. subst m'.
  destruct (started_active setupPlayer r p1 p2 m) as [Ht Hp].
  destruct (beginTurn_rests _ _ _ Ht Hp) as [Hph Ht'].
  split; [exact Hph |]. split; [exact Ht' |].
  apply seated_beginTurn. unfold started. split; simpl; eauto.
Qed.

Lemma tryStartMatch_settled r m :
  settled m -> phase m = CHOOSE_DECK ->
  settled (state (tryStartMatch setupPlayer r m)).
Proof.
  intros Hs Hph.
  destruct (tryStartMatch_cases r m)
    as [E | (p1 & p2 & H1 & H2 & _ & _ & E)]; rewrite E;
    change (state (?a, ?b, ?c)) with b; [exact Hs |].
  destruct (started_state r m p1 p2 H1 H2) as ([Hp | Hp] & Ht & Hseat);
    unfold settled; rewrite Hp; (split; [exact Hseat | rewrite Ht; eauto]).
Qed.

Lemma choose_settled e s d m :
  settled m -> settled (state (choose e s d m)).
Proof.
  intros Hs.
  destruct (choose_cases e s d m)
    as [[E _] | (p & dk & Hp & Hph & Hd & E)]; [rewrite E; exact Hs |].
  rewrite E. change (state (?a, ?b, ?c)) with b.
  apply tryStartMatch_settled; [| rewrite phase_putPlayer; exact Hph].
  unfold settled in *. rewrite phase_putPlayer, Hph in *.
  destruct Hs as [Hseat Ht]. split; [by apply seated_putPlayer |].
  rewrite playerTurn_putPlayer. exact Ht.
Qed.

Lemma step_settled e inp (ms : Matches) :
  Forall settled ms -> Forall settled (state (step' e inp ms)).
Proof.
  intros Hms. destruct inp as [h n d | c u mid inv | mi s d].
  - rewrite step_create. apply Forall_app. split; [exact Hms |].
    apply Forall_singleton. split; reflexivity.
  - simpl.
    destruct (addPlayer_cases findDecks c u mid inv ms)
      as [[msg E] | (i & m & pl & m' & Hg & Hph & _ & _ & E & Hm')].
    + rewrite E. exact Hms.
    + rewrite E. apply Forall_insert; [exact Hms |].
      destruct (getMatch_Some _ _ _ _ Hg) as [Hi _].
      pose proof (proj1 (Forall_lookup _ _) Hms i m Hi) as Hs.
      unfold settled in Hs. rewrite Hph in Hs. destruct Hs as [H2 Ht].
      destruct Hm' as [[_ ->] | (H1 & _ & ->)]; unfold settled; simpl.
      * rewrite Hph. auto.
      * split; [split; simpl; eauto | exact Ht].
  - rewrite step_chooseDeck. destruct (ms !! mi) as [m |] eqn:Hm; [| exact Hms].
    apply Forall_insert; [exact Hms |].
    apply choose_settled. exact (proj1 (Forall_lookup _ _) Hms mi m Hm).
Qed.

Lemma run_settled calls (ms : Matches) :
  Forall settled ms -> Forall settled (fst (run' calls ms)).
Proof.
  revert ms. induction calls as [| [e inp] calls IH]; intros ms Hms.
  - exact Hms.
  - simpl. apply IH, step_settled, Hms.
Qed.

(** X7. When the calls are served one at a time, each to its end before the
    next arrives (so that no call comes between the guards of a join and
    the seating of its player), then between two calls every match the
    module has reached from no matches is in the pre-game phase, in the
    choice of decks, in the draw step or in the charge step: the main step
    and the steps a turn passes through are never where a call leaves a
    match.  A player is to play exactly from the start on, and a match with
    a second player is past the pre-game phase. *)
Theorem reachable_phases (calls : list (Entropy * Input)) (m : IMatch) :
  m ∈ fst (run' calls []) ->
  (phase m = IDLE \/ phase m = CHOOSE_DECK \/
   phase m = DRAW_STEP \/ phase m = CHARGE_STEP) /\
  (playerTurn m = None <-> phase m = IDLE \/ phase m = CHOOSE_DECK) /\
  (is_Some (player2 m) -> phase m <> IDLE) /\
  (phase m <> IDLE -> seated m).
Proof.
  intros Hin.
  pose proof (run_settled calls [] (Forall_nil_2 _)) as Hall.
  pose proof (proj1 (Forall_forall _ _) Hall m Hin) as Hs.
  unfold settled in Hs.
  destruct (phase m) eqn:Hph; try contradiction; destruct Hs as [H1 H2].
  - split; [auto |]. split; [split; auto |].
    split; [intros [p2 Hp2]; congruence | congruence].
  - split; [auto |]. split; [split; auto |].
    split; [discriminate | auto].
  - split; [auto |]. split; [| split; [discriminate | auto]].
    split; [intros Hn; rewrite Hn in H2; destruct H2; discriminate |].
    intros [? | ?]; discriminate.
  - split; [auto |]. split; [| split; [discriminate | auto]].
    split; [intros Hn; rewrite Hn in H2; destruct H2; discriminate |].
    intros [? | ?]; discriminate.
Qed.

(** ** The errors a run sends *)

Lemma errors_app l1 l2 : errors (l1 ++ l2) = errors l1 ++ errors l2.
Proof. apply omap_app. Qed.

Lemma errors_untap cs : errors (EvUntap <$> cs) = [].
Proof. induction cs; [reflexivity | exact IHcs]. Qed.

Lemma errors_resolve cs : errors (EvResolveSummoningSickness <$> cs) = [].
Proof. induction cs; [reflexivity | exact IHcs]. Qed.

Lemma tryStartMatch_errors r m : errors (sent (tryStartMatch setupPlayer r m)) = [].
Proof.
  destruct (tryStartMatch_cases r m)
    as [E | (p1 & p2 & H1 & H2 & _ & _ & E)]; rewrite E; [reflexivity |].
  change (sent (?a, ?b, ?c)) with c.
  destruct (started_active setupPlayer r p1 p2 m) as [Ht Hp].
  rewrite (beginTurn_to_draw _ _ _ Ht Hp), sent_prepend.
  change (errors (?e :: ?l)) with (errors ([e] ++ l)).
  rewrite !errors_app. unfold turnOpening.
  rewrite !errors_app, !errors_untap, errors_resolve.
  match goal with |- context [drawStep ?m1] =>
    destruct (drawStep_sent_phases m1) as (rest & -> & [-> | ->])
  end; reflexivity.
Qed.

(** The error of the last guard of [addPlayer] is not among the errors of a
    call made on settled matches. *)
Lemma step_errors e inp (ms : Matches) :
  Forall settled ms ->
  Forall (fun x => snd x <> "Both players have already connected")
    (errors (sent (step' e inp ms))).
Proof.
  intros Hms. destruct inp as [h n d | c u mid inv | mi s d].
  - constructor.
  - simpl. unfold addPlayer.
    rewrite (bind_returned get _ ms ms ms []) by reflexivity.
    rewrite prepend_nil.
    destruct (getMatch mid ms) as [[i m] |] eqn:Hg;
      [| repeat constructor; discriminate].
    destruct (getMatch_Some _ _ _ _ Hg) as [Hi _].
    pose proof (proj1 (Forall_lookup _ _) Hms i m Hi) as Hs.
    case_bool_decide as Hph; [repeat constructor; discriminate |].
    case_bool_decide as Hinv; [repeat constructor; discriminate |].
    unfold settled in Hs. rewrite Hph in Hs. destruct Hs as [H2 _].
    rewrite H2, andb_false_r.
    destruct (player1 m) as [p1 |] eqn:H1; simpl.
    + erewrite bind_returned by reflexivity.
      rewrite (atMatch_run _ _ _ _ Hi).
      unfold prepend, outcome, state, sent, bind, modify, get. simpl.
      rewrite H1. simpl. constructor.
    + erewrite bind_returned by reflexivity.
      rewrite (atMatch_run _ _ _ _ Hi). constructor.
  - simpl. destruct (ms !! mi) as [m |] eqn:Hm;
      [| rewrite (atMatch_absent _ _ _ Hm); constructor].
    rewrite (atMatch_run _ _ _ _ Hm). change (sent (?a, ?b, ?c)) with c.
    destruct (choose_cases e s d m)
      as [[_ E] | (p & dk & _ & _ & _ & E)].
    + rewrite E. constructor.
    + rewrite E. change (sent (?a, ?b, ?c)) with c.
      rewrite tryStartMatch_errors. constructor.
Qed.

(** X8. In no run from no matches is the error "Both players have already
    connected" sent: a match that has its two players has left the pre-game
    phase, and a third client is told that the match is in progress. *)
Theorem full_match_error_never_sent (calls : list (Entropy * Input)) :
  Forall (fun x => snd x <> "Both players have already connected")
    (errors (snd (run' calls []))) /\
  forall c u mid inv i m,
    getMatch mid (fst (run' calls [])) = Some (i, m) ->
    seated m ->
    addPlayer findDecks c u mid inv (fst (run' calls []))
      = (Returned tt, fst (run' calls []),
         [EvSendError c "Match is currently in progress"]).
Proof.
  split.
  - assert (H : forall ms, Forall settled ms ->
                Forall (fun x => snd x <> "Both players have already connected")
                  (errors (snd (run' calls ms)))).
    { induction calls as [| [e inp] calls IH]; intros ms Hms; [constructor |].
      simpl. rewrite errors_app. apply Forall_app. split.
      - by apply step_errors.
      - apply IH, step_settled, Hms. }
    apply H. constructor.
  - intros c u mid inv i m Hg [_ [p2 H2]].
    destruct (getMatch_Some _ _ _ _ Hg) as [Hi _].
    pose proof (run_settled calls [] (Forall_nil_2 _)) as Hall.
    pose proof (proj1 (Forall_lookup _ _) Hall i m Hi) as Hs.
    assert (Hph : phase m <> IDLE).
    { intros Hph. unfold settled in Hs. rewrite Hph in Hs.
      destruct Hs as [Hn _]. congruence. }
    unfold addPlayer.
    rewrite (bind_returned get _ _ (fst (run' calls [])) (fst (run' calls [])) [])
      by reflexivity.
    rewrite prepend_nil, Hg.
    rewrite bool_decide_eq_true_2 by exact Hph. reflexivity.
Qed.

(** ** What a call leaves as it is *)

Lemma header_set_phase h ph m : header m = h -> header (set_phase ph m) = h.
Proof. intros H. exact H. Qed.

Lemma header_putPlayer h s p m : header m = h -> header (putPlayer s p m) = h.
Proof. intros H. destruct s; exact H. Qed.

Lemma tryStartMatch_header r m :
  header (state (tryStartMatch setupPlayer r m)) = header m.
Proof.
  destruct (tryStartMatch_cases r m)
    as [E | (p1 & p2 & H1 & H2 & _ & _ & E)]; rewrite E; [reflexivity |].
  change (state (?a, ?b, ?c)) with b.
  apply (closed_beginTurn (fun m' => header m' = header m)).
  - intros ph m0. apply header_set_phase.
  - intros s p m0. apply header_putPlayer.
  - reflexivity.
Qed.

Lemma choose_header e s d m : header (state (choose e s d m)) = header m.
Proof.
  destruct (choose_cases e s d m)
    as [[E _] | (p & dk & _ & _ & _ & E)]; [rewrite E; reflexivity |].
  rewrite E. change (state (?a, ?b, ?c)) with b.
  rewrite tryStartMatch_header. destruct s; reflexivity.
Qed.

Lemma step_header e inp (ms : Matches) i m :
  ms !! i = Some m ->
  exists m', state (step' e inp ms) !! i = Some m' /\ header m' = header m.
Proof.
  intros Hm. destruct inp as [h n d | c u mid inv | mi s d].
  - rewrite step_create. exists m. split; [| reflexivity].
    rewrite lookup_app_l; [exact Hm | eapply lookup_lt_Some, Hm].
  - simpl.
    destruct (addPlayer_cases findDecks c u mid inv ms)
      as [[msg E] | (k & m0 & pl & m1 & Hg & _ & _ & _ & E & Hcase)];
      rewrite E; [exists m; auto |].
    destruct (getMatch_Some _ _ _ _ Hg) as [Hk _].
    destruct (decide (k = i)) as [-> | Hne].
    + rewrite Hm in Hk. injection Hk as <-. exists m1.
      split; [apply list_lookup_insert_eq; eapply lookup_lt_Some, Hm |].
      destruct Hcase as [[_ ->] | (_ & _ & ->)]; reflexivity.
    + exists m. rewrite list_lookup_insert_ne by exact Hne. auto.
  - rewrite step_chooseDeck. destruct (ms !! mi) as [m0 |] eqn:Hm0;
      [| exists m; auto].
    destruct (decide (mi = i)) as [-> | Hne].
    + rewrite Hm in Hm0. injection Hm0 as <-. eexists.
      split; [apply list_lookup_insert_eq; eapply lookup_lt_Some, Hm |].
      apply choose_header.
    + exists m. rewrite list_lookup_insert_ne by exact Hne. auto.
Qed.

Lemma step_length e inp (ms : Matches) :
  length (state (step' e inp ms)) =
    (length ms + creations [(e, inp)])%nat.
Proof.
  destruct inp as [h n d | c u mid inv | mi s d].
  - rewrite step_create, length_app. reflexivity.
  - simpl.
    destruct (addPlayer_cases findDecks c u mid inv ms)
      as [[msg E] | (k & m0 & pl & m1 & _ & _ & _ & _ & E & _)];
      rewrite E; [| rewrite length_insert]; unfold creations, state; simpl; lia.
  - rewrite step_chooseDeck. destruct (ms !! mi);
      [rewrite length_insert |]; unfold creations; simpl; lia.
Qed.

(** X9. No call removes a match or changes the id, the invite id, the name
    or the description of one: after any calls the array holds the matches
    it held, at their places, followed by one match per [createMatch]
    call. *)
Theorem matches_are_kept (calls : list (Entropy * Input)) (ms : Matches) :
  length (fst (run' calls ms)) = (length ms + creations calls)%nat /\
  forall i m,
    ms !! i = Some m ->
    exists m', fst (run' calls ms) !! i = Some m' /\ header m' = header m.
Proof.
  revert ms. induction calls as [| [e inp] calls IH]; intros ms.
  - split; [unfold creations; simpl; lia |]. intros i m Hm. exists m. auto.
  - destruct (IH (state (step' e inp ms))) as [Hlen Hkeep]. split.
    + simpl. rewrite Hlen, step_length. unfold creations. simpl.
      destruct inp; simpl; lia.
    + intros i m Hm. simpl.
      destruct (step_header e inp ms i m Hm) as (m1 & Hm1 & Hh1).
      destruct (Hkeep i m1 Hm1) as (m' & Hm' & Hh').
      exists m'. split; [exact Hm' | congruence].
Qed.

(** X10. A call changes at most the match it works on: the others stay as
    they are, at their places.  [createMatch] works on none of the matches
    there are, [addPlayer] on the first match with the id it is given, and
    [playerChooseDeck] on the match of the player. *)
Theorem step_changes_target_only (e : Entropy) (inp : Input) (ms : Matches)
    (j : nat) :
  j <> target inp ms ->
  state (step' e inp ms) !! j = ms !! j.
Proof.
  intros Hj. destruct inp as [h n d | c u mid inv | mi s d]; simpl in Hj.
  - rewrite step_create.
    destruct (decide (j < length ms)%nat) as [Hlt | Hge].
    + by apply lookup_app_l.
    + rewrite !lookup_ge_None_2; [reflexivity | lia |].
      rewrite length_app. simpl. lia.
  - simpl.
    destruct (addPlayer_cases findDecks c u mid inv ms)
      as [[msg E] | (k & m0 & pl & m1 & Hg & _ & _ & _ & E & _)];
      rewrite E; [reflexivity |].
    rewrite Hg in Hj. by apply list_lookup_insert_ne.
  - rewrite step_chooseDeck. destruct (ms !! mi); [| reflexivity].
    apply list_lookup_insert_ne. congruence.
Qed.

(** ** A turn, for the player who plays and for the other *)

(** The draw step changes the hand and the deck of the active player at
    most. *)
Lemma drawStep_player m s p :
  playerTurn m = Some s -> getPlayer s m = Some p ->
  exists p',
    getPlayer s (state (drawStep m)) = Some p' /\
    battlezone p' = battlezone p /\ manazone p' = manazone p /\
    shieldzone p' = shieldzone p /\ graveyard p' = graveyard p /\
    hiddenzone p' = hiddenzone p /\
    (hand p' = hand p /\ deck p' = deck p \/
     exists c d,
       deck p = Some (c :: d) /\ hand p' = hand p ++ [set_zone HAND c] /\
       deck p' = Some d).
Proof.
  intros Ht Hp. destruct (deck p) as [[| c d] |] eqn:Hd.
  - rewrite (drawStep_stops m s p Ht Hp Hd). change (state (?a, ?b, ?c)) with b.
    rewrite getPlayer_set_phase. exists p. rewrite Hd. auto 10.
  - rewrite (drawStep_nonempty m s p c d Ht Hp Hd).
    change (state (?a, ?b, ?c)) with b. rewrite getPlayer_set_phase.
    destruct (moveCardToFx_cases c HAND (set_phase DRAW_STEP m))
      as [E | (s' & p0 & from & Hc & Hp0 & Hh & E)]; rewrite E;
      change (state (?a, ?b, ?c)) with b.
    + rewrite getPlayer_set_phase. exists p. rewrite Hd. auto 10.
    + rewrite getPlayer_set_phase in Hp0.
      destruct (decide (s = s')) as [<- | Hne].
      * rewrite Hp in Hp0. injection Hp0 as <-.
        rewrite (holder_head c d p Hd) in Hh. injection Hh as <-.
        rewrite getPlayer_putPlayer. eexists. split; [reflexivity |].
        simpl. rewrite Hd. simpl. rewrite decide_True by reflexivity.
        repeat split; try reflexivity. right. exists c, d. auto.
      * rewrite getPlayer_putPlayer_ne, getPlayer_set_phase by exact Hne.
        exists p. rewrite Hd. auto 10.
  - rewrite (drawStep_no_deck m s p Ht Hp Hd). change (state (?a, ?b, ?c)) with b.
    rewrite getPlayer_set_phase. exists p. rewrite Hd. auto 10.
Qed.

(** The draw step leaves the other player as he is, unless the top card of
    the deck is his. *)
Lemma drawStep_other m s p :
  playerTurn m = Some s -> getPlayer s m = Some p ->
  (forall c d, deck p = Some (c :: d) -> player c <> Some (other s)) ->
  getPlayer (other s) (state (drawStep m)) = getPlayer (other s) m.
Proof.
  intros Ht Hp Hown. destruct (deck p) as [[| c d] |] eqn:Hd.
  - rewrite (drawStep_stops m s p Ht Hp Hd). change (state (?a, ?b, ?c)) with b.
    apply getPlayer_set_phase.
  - rewrite (drawStep_nonempty m s p c d Ht Hp Hd).
    change (state (?a, ?b, ?c)) with b. rewrite getPlayer_set_phase.
    destruct (moveCardToFx_cases c HAND (set_phase DRAW_STEP m))
      as [E | (s' & p0 & from & Hc & Hp0 & Hh & E)]; rewrite E;
      change (state (?a, ?b, ?c)) with b.
    + apply getPlayer_set_phase.
    + rewrite getPlayer_putPlayer_ne; [apply getPlayer_set_phase |].
      intros <-. exact (Hown c d eq_refl Hc).
  - rewrite (drawStep_no_deck m s p Ht Hp Hd). change (state (?a, ?b, ?c)) with b.
    apply getPlayer_set_phase.
Qed.

Lemma other_ne s : other s <> s.
Proof. destruct s; discriminate. Qed.

(** X11. A turn is the business of the player who plays: when the card on
    top of his deck, if there is one, is not owned by the other player,
    [beginTurn] leaves the object of the other player as it was, and in any
    case it does not change whose turn it is. *)
Theorem beginTurn_spares_the_other_player (m : IMatch) (s : Slot) (p : IPlayer) :
  playerTurn m = Some s ->
  getPlayer s m = Some p ->
  (forall c d, deck p = Some (c :: d) -> player c <> Some (other s)) ->
  getPlayer (other s) (state (beginTurn m)) = getPlayer (other s) m /\
  playerTurn (state (beginTurn m)) = Some s.
Proof.
  intros Ht Hp Hown. split; [| exact (proj2 (beginTurn_rests m s p Ht Hp))].
  rewrite (beginTurn_to_draw m s p Ht Hp), state_prepend.
  rewrite (drawStep_other _ s (untapAll (resolveAll p))).
  - rewrite getPlayer_set_phase. apply getPlayer_putPlayer_ne, other_ne.
  - simpl. rewrite playerTurn_putPlayer. exact Ht.
  - rewrite getPlayer_set_phase. apply getPlayer_putPlayer.
  - exact Hown.
Qed.

(** X12. When [beginTurn] is over, the creatures in the battle zone of the
    active player are the ones that were there, in their order, with
    summoning sickness resolved and untapped, and the cards of his mana zone
    are untapped; his shield zone, graveyard and hidden zone are as they
    were, and his hand and deck are too, or the top card of the deck has
    gone to the end of the hand. *)
Theorem beginTurn_refreshes_the_active_player
    (m : IMatch) (s : Slot) (p : IPlayer) :
  playerTurn m = Some s ->
  getPlayer s m = Some p ->
  exists p',
    getPlayer s (state (beginTurn m)) = Some p' /\
    battlezone p' =
      (set_tapped false <$> (set_summoningSickness false <$> battlezone p)) /\
    Forall (fun c => summoningSickness c = false /\ tapped c = false)
      (battlezone p') /\
    manazone p' = (set_tapped false <$> manazone p) /\
    shieldzone p' = shieldzone p /\ graveyard p' = graveyard p /\
    hiddenzone p' = hiddenzone p /\
    (hand p' = hand p /\ deck p' = deck p \/
     exists c d,
       deck p = Some (c :: d) /\ hand p' = hand p ++ [set_zone HAND c] /\
       deck p' = Some d).
Proof.
  intros Ht Hp. rewrite (beginTurn_to_draw m s p Ht Hp), state_prepend.
  destruct (drawStep_player
              (set_phase START_TURN_STEP (putPlayer s (untapAll (resolveAll p)) m))
              s (untapAll (resolveAll p)))
    as (p' & Hp' & Hb & Hm & Hsh & Hg & Hh & Hdraw).
  { simpl. rewrite playerTurn_putPlayer. exact Ht. }
  { rewrite getPlayer_set_phase. apply getPlayer_putPlayer. }
  exists p'. split; [exact Hp' |]. rewrite Hb, Hm, Hsh, Hg, Hh.
  split; [reflexivity |].
  split; [simpl; apply Forall_fmap, Forall_fmap, Forall_true; intros c; split;
            reflexivity |].
  repeat split; try reflexivity. exact Hdraw.
Qed.

(** X13. A draw from a deck that is not empty, whose top card is owned by
    the active player: the card leaves the top of the deck for the end of
    the hand, so the hand grows by one card and the deck shrinks by one; the
    other zones and the other player are untouched, and the match goes on to
    the charge step. *)
Theorem drawStep_draws_the_top_card
    (m : IMatch) (s : Slot) (p : IPlayer) (c : ICard) (d : list ICard) :
  playerTurn m = Some s ->
  getPlayer s m = Some p ->
  deck p = Some (c :: d) ->
  player c = Some s ->
  exists p',
    outcome (drawStep m) = Returned tt /\
    getPlayer s (state (drawStep m)) = Some p' /\
    hand p' = hand p ++ [set_zone HAND c] /\
    deck p' = Some d /\
    length (hand p') = S (length (hand p)) /\
    S (length (default [] (deck p'))) = length (default [] (deck p)) /\
    battlezone p' = battlezone p /\ manazone p' = manazone p /\
    shieldzone p' = shieldzone p /\ graveyard p' = graveyard p /\
    hiddenzone p' = hiddenzone p /\
    getPlayer (other s) (state (drawStep m)) = getPlayer (other s) m /\
    phase (state (drawStep m)) = CHARGE_STEP /\
    sent (drawStep m) = [EvSetPhase DRAW_STEP; EvSetPhase CHARGE_STEP].
Proof.
  intros Ht Hp Hd Hc. rewrite (drawStep_draws_one m s p c d Ht Hp Hd Hc).
  change (outcome (?a, ?b, ?c)) with a. change (state (?a, ?b, ?c)) with b.
  change (sent (?a, ?b, ?c)) with c.
  eexists. split; [reflexivity |].
  rewrite !getPlayer_set_phase, getPlayer_putPlayer.
  split; [reflexivity |]. simpl. rewrite Hd, length_app. simpl.
  repeat split; try reflexivity; try lia.
  rewrite getPlayer_putPlayer_ne by apply other_ne.
  apply getPlayer_set_phase.
Qed.

(** ** Starting a match, to the end *)

(** X14. A match starts even when the player who begins has no card left to
    draw after the set-up: [tryStartMatch] returns true, the turn goes
    through BeginTurn, Untap, StartOfTurn and Draw, and there it ends: the
    charge step is not entered, and the match stays in DRAW_STEP with that
    player to play. *)
Theorem tryStartMatch_without_cards (r : Q) (m : IMatch) (p1 p2 : IPlayer) :
  player1 m = Some p1 ->
  player2 m = Some p2 ->
  is_Some (deck p1) ->
  is_Some (deck p2) ->
  deck (setupPlayer (if gt_half r then p1 else p2)) = Some [] ->
  let res := tryStartMatch setupPlayer r m in
  outcome res = Returned true /\
  phases (sent res) =
    [BEGIN_TURN_STEP; UNTAP_STEP; START_TURN_STEP; DRAW_STEP] /\
  phase (state res) = DRAW_STEP /\
  playerTurn (state res) = Some (if gt_half r then P1 else P2).
Proof.
  intros H1 H2 Hd1 Hd2 Hd res. subst res.
  rewrite (tryStartMatch_run setupPlayer r m p1 p2 H1 H2 Hd1 Hd2). cbv zeta.
  destruct (started_active setupPlayer r p1 p2 m) as [Ht Hp].
  rewrite (beginTurn_to_draw _ _ _ Ht Hp).
  erewrite drawStep_stops;
    [| simpl; rewrite playerTurn_putPlayer; exact Ht
     | rewrite getPlayer_set_phase; apply getPlayer_putPlayer
     | simpl; exact Hd].
  unfold prepend, outcome, state, sent. cbn [fst snd].
  split; [reflexivity |]. split; [| split; [reflexivity |]].
  - change (phases (?e :: ?l)) with (phases ([e] ++ l)).
    rewrite !phases_app, phases_turnOpening. reflexivity.
  - simpl. rewrite playerTurn_putPlayer. exact Ht.
Qed.

(** X15. What a start sends, when the player who begins has a card to draw:
    a state update to both players; the change to BeginTurn; one resolution
    of summoning sickness per creature of his battle zone, in the order of
    the zone; the change to Untap; one untap per creature of the battle
    zone, then one per card of the mana zone, in the order of the zones; a
    second state update to both players; the changes to StartOfTurn, Draw
    and Charge; and nothing else. *)
Theorem tryStartMatch_sends (r : Q) (m : IMatch) (p1 p2 : IPlayer)
    (c : ICard) (d : list ICard) :
  player1 m = Some p1 ->
  player2 m = Some p2 ->
  is_Some (deck p1) ->
  is_Some (deck p2) ->
  deck (setupPlayer (if gt_half r then p1 else p2)) = Some (c :: d) ->
  let p := setupPlayer (if gt_half r then p1 else p2) in
  let both := [client (setupPlayer p1); client (setupPlayer p2)] in
  sent (tryStartMatch setupPlayer r m) =
    [EvStateUpdate both; EvSetPhase BEGIN_TURN_STEP] ++
    (EvResolveSummoningSickness <$> battlezone p) ++
    [EvSetPhase UNTAP_STEP] ++
    (EvUntap <$> (set_summoningSickness false <$> battlezone p)) ++
    (EvUntap <$> manazone p) ++
    [EvStateUpdate both; EvSetPhase START_TURN_STEP;
     EvSetPhase DRAW_STEP; EvSetPhase CHARGE_STEP].
Proof.
  intros H1 H2 Hd1 Hd2 Hd p both. subst p both.
  rewrite (tryStartMatch_run setupPlayer r m p1 p2 H1 H2 Hd1 Hd2). cbv zeta.
  destruct (started_active setupPlayer r p1 p2 m) as [Ht Hp].
  rewrite (beginTurn_to_draw _ _ _ Ht Hp).
  erewrite drawStep_nonempty;
    [| simpl; rewrite playerTurn_putPlayer; exact Ht
     | rewrite getPlayer_set_phase; apply getPlayer_putPlayer
     | simpl; exact Hd].
  unfold prepend, sent, turnOpening. cbn [fst snd].
  unfold started, clientsOf. destruct (gt_half r); simpl;
    rewrite <- ?app_assoc; simpl; rewrite <- ?app_assoc; reflexivity.
Qed.

(** ** From the creation of a match to its first turn *)

Lemma step_join e c u mid inv (ms : Matches) :
  step' e (InJoin c u mid inv) ms = addPlayer findDecks c u mid inv ms.
Proof. reflexivity. Qed.

Lemma run_cons e inp calls (ms : Matches) :
  fst (run' ((e, inp) :: calls) ms) = fst (run' calls (state (step' e inp ms))).
Proof. reflexivity. Qed.

(** X16. A match is created; two clients join it with its id and invite id;
    the first player, then the second, chooses one of his decks.  Then the
    array holds that one match, with the id, invite id, name and description
    it was created with, both players connected, the player picked by
    [Math.random()] at the second choice to play, and the first turn
    stopped in the charge step, or in the draw step if there was no card to
    draw. *)
Theorem two_players_start_a_match
    (e0 e1 e2 e3 e4 : Entropy) (h n d : string)
    (c1 c2 : Client) (u1 u2 : IUser) (k1 k2 : string) (dk1 dk2 : IDeck) :
  List.find (fun x => bool_decide (deck_uid x = k1)) (findDecks (uid u1))
    = Some dk1 ->
  List.find (fun x => bool_decide (deck_uid x = k2)) (findDecks (uid u2))
    = Some dk2 ->
  exists m,
    fst (run'
           [(e0, InCreate h n d);
            (e1, InJoin c1 u1 (shortid e0 0) (shortid e0 1));
            (e2, InJoin c2 u2 (shortid e0 0) (shortid e0 1));
            (e3, InChooseDeck 0 P1 k1);
            (e4, InChooseDeck 0 P2 k2)] []) = [m] /\
    header m = (shortid e0 0, shortid e0 1, n, d) /\
    seated m /\
    playerTurn m = Some (if gt_half (random e4) then P1 else P2) /\
    (phase m = DRAW_STEP \/ phase m = CHARGE_STEP).
Proof.
  intros Hk1 Hk2.
  set (m0 := {| id := shortid e0 0; inviteId := shortid e0 1; name := n;
                description := d; phase := IDLE; player1 := None;
                player2 := None; playerTurn := None |}).
  set (j1 := joining findDecks c1 u1). set (j2 := joining findDecks c2 u2).
  set (m1 := set_player1 (Some j1) m0).
  set (m2 := set_phase CHOOSE_DECK (set_player2 (Some j2) m1)).
  set (q1 := set_deck (Some (dealt getCard cardSetup e3 P1 (cards dk1))) j1).
  set (m3 := putPlayer P1 q1 m2).
  set (q2 := set_deck (Some (dealt getCard cardSetup e4 P2 (cards dk2))) j2).
  set (m4 := putPlayer P2 q2 m3).
  assert (Hfind : forall x : IMatch, id x = shortid e0 0 ->
                  getMatch (shortid e0 0) [x] = Some (0%nat, x)).
  { intros x Hx. unfold getMatch. csimpl. rewrite decide_True by exact Hx.
    reflexivity. }
  assert (E0 : state (step' e0 (InCreate h n d) []) = [m0]) by reflexivity.
  assert (E1 : state (step' e1 (InJoin c1 u1 (shortid e0 0) (shortid e0 1)) [m0])
               = [m1]).
  { rewrite step_join.
    rewrite (addPlayer_first_run c1 u1 (shortid e0 0) (shortid e0 1) [m0]
               0%nat m0 (Hfind m0 eq_refl) eq_refl eq_refl eq_refl).
    reflexivity. }
  assert (E2 : state (step' e2 (InJoin c2 u2 (shortid e0 0) (shortid e0 1)) [m1])
               = [m2]).
  { rewrite step_join.
    rewrite (addPlayer_second_run c2 u2 (shortid e0 0) (shortid e0 1) [m1]
               0%nat m1 j1 (Hfind m1 eq_refl) eq_refl eq_refl eq_refl eq_refl).
    reflexivity. }
  assert (E3 : state (step' e3 (InChooseDeck 0 P1 k1) [m2]) = [m3]).
  { rewrite step_chooseDeck. change ([m2] !! 0%nat) with (Some m2). cbv iota.
    rewrite (choose_known e3 P1 k1 m2 j1 dk1 eq_refl eq_refl eq_refl Hk1).
    change (state (?a, ?b, ?c)) with b. fold q1 m3.
    rewrite (tryStartMatch_refuses setupPlayer (random e3) m3)
      by (right; right; right; reflexivity).
    reflexivity. }
  assert (E4 : state (step' e4 (InChooseDeck 0 P2 k2) [m3]) =
               [state (tryStartMatch setupPlayer (random e4) m4)]).
  { rewrite step_chooseDeck. change ([m3] !! 0%nat) with (Some m3). cbv iota.
    rewrite (choose_known e4 P2 k2 m3 j2 dk2 eq_refl eq_refl eq_refl Hk2).
    reflexivity. }
  rewrite run_cons, E0, run_cons, E1, run_cons, E2, run_cons, E3, run_cons, E4.
  eexists. split; [reflexivity |].
  split; [rewrite tryStartMatch_header; reflexivity |].
  rewrite (tryStartMatch_run setupPlayer (random e4) m4 q1 q2 eq_refl eq_refl)
    by (simpl; eauto).
  cbv zeta. change (state (?a, ?b, ?c)) with b.
  destruct (started_state (random e4) m4 q1 q2 eq_refl eq_refl)
    as (Hph & Ht & Hseat).
  auto.
Qed.

End More.

(** ** Replays *)

Section Replay.
Variable getCard : string -> ICard.





(** A run with the same collaborators at every call. *)
Lemma replay_constant cardSetup setupPlayer findDecks calls (ms : Matches) :
  replay getCard (constant cardSetup setupPlayer findDecks <$> calls) ms =
  run getCard cardSetup setupPlayer findDecks calls ms.
Proof.
  revert ms. induction calls as [| [e i] calls IH]; intros ms.
  - reflexivity.
  - simpl. rewrite IH. reflexivity.
Qed.





End Replay.





(** ** Joins that overlap *)

Section Overlap.
Variable getCard : string -> ICard.
Variable cardSetup : ICard -> ICard.
Variable setupPlayer : IPlayer -> IPlayer.
Variable findDecks : string -> list IDeck.

Local Abbreviation run' := (run getCard cardSetup setupPlayer findDecks).
Local Abbreviation step' := (step getCard cardSetup setupPlayer findDecks).

(** What the guards of [addPlayer] return. *)
Lemma addPlayerGuards_cases c u mid inv (ms : Matches) :
  (exists msg,
     addPlayerGuards c u mid inv ms = (Returned None, ms, [EvSendError c msg])) \/
  (exists i m,
     getMatch mid ms = Some (i, m) /\ phase m = IDLE /\ inv = inviteId m /\
     truthy (player1 m) && truthy (player2 m) = false /\
     addPlayerGuards c u mid inv ms =
       (Returned (Some {| t_client := c; t_user := u; t_matchId := mid;
                          t_inviteId := inv; t_match := i |}), ms, [])).
Proof.
  unfold addPlayerGuards. rewrite (bind_returned get _ ms ms ms []) by reflexivity.
  rewrite prepend_nil.
  destruct (getMatch mid ms) as [[i m] |] eqn:Hg; [| left; eexists; reflexivity].
  case_bool_decide as Hph; [left; eexists; reflexivity |].
  case_bool_decide as Hinv; [left; eexists; reflexivity |].
  destruct (truthy (player1 m) && truthy (player2 m)) eqn:Hfull;
    [left; eexists; reflexivity |].
  right. exists i, m. repeat split; try assumption;
    match goal with
    | H : ¬ (?a ≠ ?b) |- ?a = ?b =>
        destruct (decide (a = b)); [assumption | contradiction]
    end.
Qed.

(** The answer of a join that finds a seat free in a match of the pre-game
    phase does what [addPlayer] does there. *)
Lemma addPlayerSeat_free c u mid inv answer (ms : Matches) i m :
  getMatch mid ms = Some (i, m) -> phase m = IDLE -> inv = inviteId m ->
  truthy (player1 m) && truthy (player2 m) = false ->
  addPlayerSeat {| t_client := c; t_user := u; t_matchId := mid;
                   t_inviteId := inv; t_match := i |} answer ms =
    Some (addPlayer (fun _ => answer) c u mid inv ms).
Proof.
  intros Hg Hph Hinv Hfull. destruct (getMatch_Some _ _ _ _ Hg) as [Hi _].
  unfold addPlayerSeat, addPlayer. simpl. rewrite Hi, Hfull.
  rewrite (bind_returned get _ ms ms ms []) by reflexivity.
  rewrite prepend_nil, Hg.
  rewrite bool_decide_eq_false_2 by (intros Hn; apply Hn, Hph).
  rewrite bool_decide_eq_false_2 by (intros Hn; apply Hn, Hinv).
  rewrite Hfull. reflexivity.
Qed.

Lemma run_header calls (ms : Matches) i m :
  ms !! i = Some m ->
  exists m', fst (run' calls ms) !! i = Some m' /\ header m' = header m.
Proof.
  revert ms m. induction calls as [| [e inp] calls IH]; intros ms m Hm.
  - exists m. auto.
  - simpl.
    destruct (step_header getCard cardSetup setupPlayer findDecks e inp ms i m Hm)
      as (m1 & Hm1 & Hh1).
    destruct (IH _ m1 Hm1) as (m' & Hm' & Hh').
    exists m'. split; [exact Hm' | congruence].
Qed.

(** The match found for an id is found for it after any calls. *)
Lemma run_getMatch calls (ms : Matches) mid i m :
  getMatch mid ms = Some (i, m) ->
  exists m',
    getMatch mid (fst (run' calls ms)) = Some (i, m') /\ header m' = header m.
Proof.
  unfold getMatch. intros Hg. apply list_find_Some in Hg.
  destruct Hg as (Hi & Hid & Hfirst).
  destruct (run_header calls ms i m Hi) as (m' & Hm' & Hh).
  exists m'. split; [| exact Hh].
  apply list_find_Some. split; [exact Hm' |]. split.
  - unfold header in Hh. congruence.
  - intros j y' Hy' Hlt.
    assert (Hj : is_Some (ms !! j)).
    { apply lookup_lt_is_Some. apply lookup_lt_Some in Hi. lia. }
    destruct Hj as [y Hy].
    destruct (run_header calls ms j y Hy) as (y'' & Hy'' & Hhy).
    rewrite Hy' in Hy''. injection Hy'' as <-.
    unfold header in Hhy. specialize (Hfirst j y Hy Hlt). congruence.
Qed.

(** A join that fails its guards does nothing else. *)
Lemma addPlayer_refused c u mid inv (ms : Matches) msg :
  addPlayerGuards c u mid inv ms = (Returned None, ms, [EvSendError c msg]) ->
  addPlayer findDecks c u mid inv ms = (Returned tt, ms, [EvSendError c msg]).
Proof.
  unfold addPlayerGuards, addPlayer.
  rewrite !(bind_returned get _ ms ms ms []) by reflexivity.
  rewrite !prepend_nil.
  destruct (getMatch mid ms) as [[i m] |];
    [| intros E; injection E as <-; reflexivity].
  destruct (bool_decide (phase m ≠ IDLE));
    [intros E; injection E as <-; reflexivity |].
  destruct (bool_decide (inv ≠ inviteId m));
    [intros E; injection E as <-; reflexivity |].
  destruct (truthy (player1 m) && truthy (player2 m));
    [intros E; injection E as <-; reflexivity | discriminate].
Qed.

(** X17. [addPlayer] is its guards followed, when they pass, by the seating
    of the player with the decks found.  The guards change nothing and send
    one error when they fail, which is all the call then does; when they
    pass they send nothing, and seating the player at once with the answer
    of the deck query does what the call does. *)
Theorem addPlayer_guards_then_seat (c : Client) (u : IUser) (mid inv : string)
    (ms : Matches) :
  (exists msg,
     addPlayerGuards c u mid inv ms = (Returned None, ms, [EvSendError c msg]) /\
     addPlayer findDecks c u mid inv ms = (Returned tt, ms, [EvSendError c msg])) \/
  (exists i,
     let t := {| t_client := c; t_user := u; t_matchId := mid;
                 t_inviteId := inv; t_match := i |} in
     addPlayerGuards c u mid inv ms = (Returned (Some t), ms, []) /\
     addPlayerSeat t (findDecks (uid u)) ms =
       Some (addPlayer findDecks c u mid inv ms)).
Proof.
  destruct (addPlayerGuards_cases c u mid inv ms)
    as [[msg E] | (i & m & Hg & Hph & Hinv & Hfull & E)].
  - left. exists msg. split; [exact E | by apply addPlayer_refused].
  - right. exists i. cbv zeta. split; [exact E |].
    exact (addPlayerSeat_free c u mid inv (findDecks (uid u)) ms i m
             Hg Hph Hinv Hfull).
Qed.

(** A suspended join designates its match through any call. *)
Lemma step_valid e inp (ms : Matches) t :
  valid ms t -> valid (state (step' e inp ms)) t.
Proof.
  intros (m & Hg & Hinv).
  destruct (run_getMatch [(e, inp)] ms _ _ _ Hg) as (m' & Hg' & Hh).
  exists m'. split; [exact Hg' |]. unfold header in Hh. congruence.
Qed.

End Overlap.

(** The third of three joins that overlap finds no seat, although its guards
    have passed: the first two answers seat the two players and open the
    choice of decks. *)
Example third_overlapping_join_finds_no_seat :
  let ms0 := state (createMatch (exampleEntropy (1 # 4)) "h" "match" "" []) in
  Forall (fun t =>
            addPlayerGuards (t_client t) (t_user t) "A" "B" ms0
              = (Returned (Some t), ms0, [])) exampleTickets /\
  exists t1 t2 t3 r1 r2,
    exampleTickets = [t1; t2; t3] /\
    addPlayerSeat t1 (exampleDecks "u1") ms0 = Some r1 /\
    addPlayerSeat t2 (exampleDecks "u2") (state r1) = Some r2 /\
    (phase <$> state r2) = [CHOOSE_DECK] /\
    addPlayerSeat t3 (exampleDecks "u3") (state r2) = None.
Proof.
  split; [repeat constructor |].
  do 5 eexists. split; [reflexivity |].
  split; [vm_compute; reflexivity |]. split; [vm_compute; reflexivity |].
  split; vm_compute; reflexivity.
Qed.

Lemma replay_app getCard calls1 calls2 (ms : Matches) :
  replay getCard (calls1 ++ calls2) ms =
    (fst (replay getCard calls2 (fst (replay getCard calls1 ms))),
     snd (replay getCard calls1 ms) ++
     snd (replay getCard calls2 (fst (replay getCard calls1 ms)))).
Proof.
  revert ms. induction calls1 as [| [d i] calls1 IH]; intros ms.
  - simpl. destruct (replay getCard calls2 ms). reflexivity.
  - simpl. rewrite IH. simpl. rewrite app_assoc. reflexivity.
Qed.

Lemma replay_one getCard d i (ms : Matches) :
  replay getCard [(d, i)] ms =
    (state (step getCard (cardSetupOf d) (setupOf d) (findOf d) (entropy d) i ms),
     sent (step getCard (cardSetupOf d) (setupOf d) (findOf d) (entropy d) i ms)).
Proof. simpl. rewrite app_nil_r. reflexivity. Qed.

(** One arrival amounts to the calls [asCalls] gives for it, and leaves the
    matches as calls leave them and the suspended joins designating their
    matches. *)
Lemma serve_serial getCard a sv sv1 l1 :
  Forall settled (registry sv) ->
  Forall (valid (registry sv)) (suspended sv) ->
  serve getCard a sv = Some (sv1, l1) ->
  replay getCard (asCalls a sv) (registry sv) = (registry sv1, l1) /\
  Forall settled (registry sv1) /\
  Forall (valid (registry sv1)) (suspended sv1).
Proof.
  intros Hset Hval Hserve.
  assert (Hcall : forall d i,
            (forall c u mid inv, i <> InJoin c u mid inv) ->
            serve getCard (ACall d i) sv = Some (sv1, l1) ->
            asCalls (ACall d i) sv = [(d, i)] ->
            replay getCard [(d, i)] (registry sv) = (registry sv1, l1) /\
            Forall settled (registry sv1) /\
            Forall (valid (registry sv1)) (suspended sv1)).
  { intros d i Hi Hs _.
    assert (Hs' : Some ({| registry :=
                             state (step getCard (cardSetupOf d) (setupOf d)
                                      (findOf d) (entropy d) i (registry sv));
                           suspended := suspended sv |},
                        sent (step getCard (cardSetupOf d) (setupOf d)
                                (findOf d) (entropy d) i (registry sv)))
                  = Some (sv1, l1)).
    { rewrite <- Hs. destruct i; try reflexivity. exfalso. eapply Hi. reflexivity. }
    injection Hs' as <- <-. cbn [registry suspended]. rewrite replay_one.
    split; [reflexivity |]. split; [by apply step_settled |].
    eapply Forall_impl; [exact Hval |]. intros t. apply step_valid. }
  destruct a as [d [h n ds | c u mid inv | mi s dk] | k answer].
  - apply (Hcall d _); [discriminate | exact Hserve | reflexivity].
  - simpl in Hserve. injection Hserve as <- <-. simpl.
    destruct (addPlayerGuards_cases c u mid inv (registry sv))
      as [[msg E] | (i & m & Hg & Hph & Hinv & Hfull & E)]; rewrite E.
    + change (outcome (?a, ?b, ?c)) with a. change (state (?a, ?b, ?c)) with b.
      change (sent (?a, ?b, ?c)) with c. cbv iota. rewrite app_nil_r.
      rewrite replay_one. simpl step.
      rewrite (addPlayer_refused (findOf d) c u mid inv (registry sv) msg E).
      split; [reflexivity |]. split; [exact Hset | exact Hval].
    + change (outcome (?a, ?b, ?c)) with a. change (state (?a, ?b, ?c)) with b.
      change (sent (?a, ?b, ?c)) with c. cbv iota.
      split; [reflexivity |]. split; [exact Hset |].
      apply Forall_app. split; [exact Hval |]. apply Forall_singleton.
      exists m. auto.
  - apply (Hcall d _); [discriminate | exact Hserve | reflexivity].
  - simpl in Hserve. simpl asCalls.
    destruct (suspended sv !! k) as [t |] eqn:Hk; [| discriminate].
    destruct (addPlayerSeat t answer (registry sv)) as [r |] eqn:Hseat;
      [| discriminate].
    injection Hserve as <- <-. cbn [registry suspended].
    pose proof (proj1 (Forall_lookup _ _) Hval _ _ Hk) as (m & Hg & Hinv).
    destruct (getMatch_Some _ _ _ _ Hg) as [Hi _].
    destruct t as [c u mid inv i].
    cbn [t_client t_user t_matchId t_inviteId t_match] in *.
    assert (Hfull : truthy (player1 m) && truthy (player2 m) = false).
    { revert Hseat. unfold addPlayerSeat. simpl. rewrite Hi.
      destruct (truthy (player1 m) && truthy (player2 m));
        [discriminate | reflexivity]. }
    assert (Hph : phase m = IDLE).
    { pose proof (proj1 (Forall_lookup _ _) Hset _ _ Hi) as Hs.
      unfold settled, seated in Hs.
      destruct (phase m); try contradiction; try reflexivity;
        destruct Hs as [[[p1 H1] [p2 H2]] _]; rewrite H1, H2 in Hfull;
        discriminate. }
    rewrite (addPlayerSeat_free c u mid inv answer _ i m Hg Hph Hinv Hfull)
      in Hseat.
    injection Hseat as <-. rewrite replay_one.
    split; [reflexivity |].
    split; [exact (step_settled getCard (fun c => c) (fun p => p)
                     (fun _ => answer) (entropy (answering answer))
                     (InJoin c u mid inv) _ Hset) |].
    apply Forall_delete.
    eapply Forall_impl; [exact Hval |]. intros t.
    exact (step_valid getCard (fun c => c) (fun p => p) (fun _ => answer)
             (entropy (answering answer)) (InJoin c u mid inv) _ t).
Qed.

(** X18. Joins that overlap: calls arrive while joins await their decks, and
    the answers come in any order.  From matches as calls leave them, as
    long as no answer finds both seats of its match taken (which would
    replace a player object), the matches and the messages are those of
    calls served one at a time, each join that passed its guards being
    served when its decks are found; and the matches are again as calls
    leave them. *)
Theorem overlapping_joins_are_serial (getCard : string -> ICard)
    (arrivals : list Arrival) (sv sv' : Running) (evs : list Event) :
  Forall settled (registry sv) ->
  Forall (valid (registry sv)) (suspended sv) ->
  serveAll getCard arrivals sv = Some (sv', evs) ->
  replay getCard (serialised getCard arrivals sv) (registry sv)
    = (registry sv', evs) /\
  Forall settled (registry sv').
Proof.
  revert sv evs. induction arrivals as [| a arrivals IH]; intros sv evs Hset Hval H.
  - simpl in H. injection H as <- <-. split; [reflexivity | exact Hset].
  - simpl in H. simpl serialised.
    destruct (serve getCard a sv) as [[sv1 l1] |] eqn:Hserve; [| discriminate].
    destruct (serveAll getCard arrivals sv1) as [[sv2 l2] |] eqn:Hrest;
      [| discriminate].
    injection H as <- <-.
    destruct (serve_serial getCard a sv sv1 l1 Hset Hval Hserve)
      as (Hone & Hset1 & Hval1).
    destruct (IH sv1 l2 Hset1 Hval1 Hrest) as [Hmore Hset2].
    split; [| exact Hset2].
    rewrite replay_app, Hone. simpl. rewrite Hmore. reflexivity.
Qed.

Lemma overlapping_joins_are_serial_witness :
  exists sv' evs,
    serveAll exampleCard (exampleArrivals (3 # 4))
      {| registry := []; suspended := [] |} = Some (sv', evs) /\
    replay exampleCard
      (serialised exampleCard (exampleArrivals (3 # 4))
         {| registry := []; suspended := [] |}) []
      = (registry sv', evs) /\
    Forall settled (registry sv').
Proof.
  assert (H : exists r,
            serveAll exampleCard (exampleArrivals (3 # 4))
              {| registry := []; suspended := [] |} = Some r)
    by (eexists; vm_compute; reflexivity).
  destruct H as [[sv' evs] H]. exists sv', evs. split; [exact H |].
  apply (overlapping_joins_are_serial exampleCard (exampleArrivals (3 # 4))
           {| registry := []; suspended := [] |} sv' evs);
    [constructor | constructor | exact H].
Defined.

(** ** Instances of the further properties *)

Lemma addPlayer_first_witness :
  exists m',
    addPlayer exampleDecks 1%nat {| uid := "u1" |} "A" "B"
      (exampleRun (take 1 (exampleJoins (1 # 4))))
      = (Returned tt, [m'], [EvAttach 1%nat P1]) /\
    phase m' = IDLE.
Proof.
  destruct (addPlayer_first exampleDecks 1%nat {| uid := "u1" |} "A" "B"
              (exampleRun (take 1 (exampleJoins (1 # 4)))) 0%nat
              {| id := "A"; inviteId := "B"; name := "match";
                 description := ""; phase := IDLE; player1 := None;
                 player2 := None; playerTurn := None |}
              eq_refl eq_refl eq_refl eq_refl)
    as (m' & E & _ & _ & Hph & _).
  exists m'. split; [exact E | exact Hph].
Defined.

Lemma addPlayer_second_offers_decks_witness :
  exists m',
    addPlayer exampleDecks 2%nat {| uid := "u2" |} "A" "B"
      (exampleRun (take 2 (exampleJoins (1 # 4))))
      = (Returned tt, [m'],
         [EvAttach 2%nat P2; EvSendChooseDeck 1%nat (exampleDecks "u1");
          EvSendChooseDeck 2%nat (exampleDecks "u2")]) /\
    phase m' = CHOOSE_DECK.
Proof.
  destruct (addPlayer_second_offers_decks exampleDecks 2%nat {| uid := "u2" |}
              "A" "B" (exampleRun (take 2 (exampleJoins (1 # 4)))) 0%nat
              {| id := "A"; inviteId := "B"; name := "match";
                 description := ""; phase := IDLE;
                 player1 := Some (joining exampleDecks 1%nat {| uid := "u1" |});
                 player2 := None; playerTurn := None |}
              (joining exampleDecks 1%nat {| uid := "u1" |})
              eq_refl eq_refl eq_refl eq_refl eq_refl)
    as (m' & E & _ & _ & Hph & _).
  exists m'. split; [exact E | exact Hph].
Defined.

Lemma playerChooseDeck_unknown_deck_witness :
  playerChooseDeck exampleCard (fun c => c) exampleSetup
    (exampleEntropy (1 # 4)) P2 "nope" exampleWaiting
  = (Returned tt, exampleWaiting,
     [EvSendWarning 1%nat "You do not have the rights to use that deck"]).
Proof.
  apply (playerChooseDeck_unknown_deck exampleCard (fun c => c) exampleSetup
           exampleDecks (exampleEntropy (1 # 4)) P2 "nope" exampleWaiting
           (examplePlayer None [] []) eq_refl eq_refl eq_refl).
  intros dk Hin. inversion Hin.
Defined.

Lemma playerChooseDeck_first_choice_witness :
  outcome (playerChooseDeck exampleCard (fun c => c) exampleSetup
             (exampleEntropy (1 # 4)) P1 "d1"
             exampleChoosing)
  = Returned tt.
Proof.
  destruct (playerChooseDeck_first_choice exampleCard (fun c => c) exampleSetup
              (exampleEntropy (1 # 4)) P1 "d1"
              exampleChoosing
              (joining exampleDecks 1%nat {| uid := "u1" |})
              {| deck_uid := "d1"; deck_name := "Starter";
                 cards := ["c1"; "c2"; "c3"; "c4"; "c5"];
                 standard := true; public := true |}
              eq_refl eq_refl eq_refl eq_refl eq_refl) as [E _].
  rewrite E. reflexivity.
Defined.

Lemma addPlayer_error_messages_witness :
  addPlayer exampleDecks 3%nat {| uid := "u3" |} "A" "wrong invite"
    (exampleRun (exampleCalls (1 # 4)))
  = (Returned tt, exampleRun (exampleCalls (1 # 4)),
     [EvSendError 3%nat "Match is currently in progress"]).
Proof.
  assert (E : exists m,
             getMatch "A" (exampleRun (exampleCalls (1 # 4))) = Some (0%nat, m)
             /\ phase m <> IDLE).
  { eexists. split; [vm_compute; reflexivity | vm_compute; discriminate]. }
  destruct E as (m & Hg & Hph).
  exact (proj1 (proj2 (addPlayer_error_messages exampleDecks 3%nat
                         {| uid := "u3" |} "A" "wrong invite"
                         (exampleRun (exampleCalls (1 # 4)))) 0%nat m Hg)
           Hph).
Defined.

Lemma reachable_phases_witness :
  exists m,
    fst (run exampleCard (fun c => c) exampleSetup exampleDecks
           (exampleCalls (1 # 4)) []) !! 0%nat = Some m /\
    (phase m = IDLE \/ phase m = CHOOSE_DECK \/
     phase m = DRAW_STEP \/ phase m = CHARGE_STEP).
Proof.
  assert (E : exists m,
             fst (run exampleCard (fun c => c) exampleSetup exampleDecks
                    (exampleCalls (1 # 4)) []) !! 0%nat = Some m)
    by (eexists; vm_compute; reflexivity).
  destruct E as [m E]. exists m. split; [exact E |].
  exact (proj1 (reachable_phases exampleCard (fun c => c) exampleSetup
                  exampleDecks (exampleCalls (1 # 4)) m
                  (list_elem_of_lookup_2 _ _ _ E))).
Defined.

Lemma full_match_error_never_sent_witness :
  addPlayer exampleDecks 3%nat {| uid := "u3" |} "A" "B"
    (fst (run exampleCard (fun c => c) exampleSetup exampleDecks
            (exampleJoins (1 # 4)) []))
  = (Returned tt,
     fst (run exampleCard (fun c => c) exampleSetup exampleDecks
            (exampleJoins (1 # 4)) []),
     [EvSendError 3%nat "Match is currently in progress"]).
Proof.
  assert (E : exists m,
             getMatch "A"
               (fst (run exampleCard (fun c => c) exampleSetup exampleDecks
                       (exampleJoins (1 # 4)) [])) = Some (0%nat, m)
             /\ seated m).
  { eexists. split; [vm_compute; reflexivity |]. split; simpl; eauto. }
  destruct E as (m & Hg & Hs).
  exact (proj2 (full_match_error_never_sent exampleCard (fun c => c)
                  exampleSetup exampleDecks (exampleJoins (1 # 4)))
           3%nat {| uid := "u3" |} "A" "B" 0%nat m Hg Hs).
Defined.

Lemma matches_are_kept_witness :
  exists m',
    fst (run exampleCard (fun c => c) exampleSetup exampleDecks
           (exampleCalls (1 # 4)) [exampleWaiting]) !! 0%nat = Some m' /\
    header m' = header exampleWaiting.
Proof.
  exact (proj2 (matches_are_kept exampleCard (fun c => c) exampleSetup
                  exampleDecks (exampleCalls (1 # 4)) [exampleWaiting])
           0%nat exampleWaiting eq_refl).
Defined.

Lemma step_changes_target_only_witness :
  state (step exampleCard (fun c => c) exampleSetup exampleDecks
           (exampleEntropy (1 # 4)) (InChooseDeck 1 P1 "d1")
           [exampleWaiting; exampleChoosing]) !! 0%nat
  = [exampleWaiting; exampleChoosing] !! 0%nat.
Proof.
  apply (step_changes_target_only exampleCard (fun c => c) exampleSetup
           exampleDecks (exampleEntropy (1 # 4)) (InChooseDeck 1 P1 "d1")
           [exampleWaiting; exampleChoosing] 0%nat).
  simpl. lia.
Defined.

Lemma beginTurn_spares_the_other_player_witness :
  getPlayer P2 (state (beginTurn (exampleTurn (Some exampleDeck))))
    = Some (examplePlayer (Some []) [] []) /\
  playerTurn (state (beginTurn (exampleTurn (Some exampleDeck)))) = Some P1.
Proof.
  apply (beginTurn_spares_the_other_player (exampleTurn (Some exampleDeck)) P1
           (exampleActive (Some exampleDeck)) eq_refl eq_refl).
  intros c d Hd. injection Hd as <- _. discriminate.
Defined.

Lemma beginTurn_refreshes_the_active_player_witness :
  exists p',
    getPlayer P1 (state (beginTurn (exampleTurn (Some exampleDeck)))) = Some p' /\
    battlezone p' =
      [set_summoningSickness false (exampleCreature "x" false);
       set_summoningSickness false (exampleCreature "y" false)].
Proof.
  destruct (beginTurn_refreshes_the_active_player
              (exampleTurn (Some exampleDeck)) P1
              (exampleActive (Some exampleDeck)) eq_refl eq_refl)
    as (p' & Hp' & Hb & _).
  exists p'. split; [exact Hp' | exact Hb].
Defined.

Lemma drawStep_draws_the_top_card_witness :
  exists p',
    getPlayer P1 (state (drawStep (exampleTurn (Some exampleDeck)))) = Some p' /\
    hand p' = [set_zone HAND (exampleCreature "a" false)] /\
    deck p' =
      Some [exampleCreature "b" false; exampleCreature "c" false;
            exampleCreature "d" false].
Proof.
  destruct (drawStep_draws_the_top_card (exampleTurn (Some exampleDeck)) P1
              (exampleActive (Some exampleDeck)) (exampleCreature "a" false)
              [exampleCreature "b" false; exampleCreature "c" false;
               exampleCreature "d" false]
              eq_refl eq_refl eq_refl eq_refl)
    as (p' & _ & Hp' & Hh & Hd & _).
  exists p'. split; [exact Hp' |]. split; [exact Hh | exact Hd].
Defined.

Lemma tryStartMatch_without_cards_witness :
  outcome (tryStartMatch exampleSetup (3 # 4)
             (exampleTurn (Some (take 3 exampleDeck)))) = Returned true /\
  phase (state (tryStartMatch exampleSetup (3 # 4)
                  (exampleTurn (Some (take 3 exampleDeck))))) = DRAW_STEP.
Proof.
  destruct (tryStartMatch_without_cards exampleSetup (3 # 4)
              (exampleTurn (Some (take 3 exampleDeck)))
              (exampleActive (Some (take 3 exampleDeck)))
              (examplePlayer (Some []) [] [])
              eq_refl eq_refl (ex_intro _ _ eq_refl) (ex_intro _ _ eq_refl)
              eq_refl)
    as (Ho & _ & Hph & _).
  split; [exact Ho | exact Hph].
Defined.

Lemma tryStartMatch_sends_witness :
  sent (tryStartMatch exampleSetup (3 # 4) (exampleTurn (Some exampleDeck))) =
    [EvStateUpdate [1%nat; 1%nat]; EvSetPhase BEGIN_TURN_STEP;
     EvResolveSummoningSickness (exampleCreature "x" true);
     EvResolveSummoningSickness (exampleCreature "y" false);
     EvSetPhase UNTAP_STEP;
     EvUntap (set_summoningSickness false (exampleCreature "x" true));
     EvUntap (set_summoningSickness false (exampleCreature "y" false));
     EvUntap (set_zone MANAZONE (exampleCreature "z" true));
     EvStateUpdate [1%nat; 1%nat]; EvSetPhase START_TURN_STEP;
     EvSetPhase DRAW_STEP; EvSetPhase CHARGE_STEP].
Proof.
  exact (tryStartMatch_sends exampleSetup (3 # 4)
           (exampleTurn (Some exampleDeck))
           (exampleActive (Some exampleDeck))
           (examplePlayer (Some []) [] [])
           (exampleCreature "d" false) []
           eq_refl eq_refl (ex_intro _ _ eq_refl) (ex_intro _ _ eq_refl)
           eq_refl).
Defined.

Lemma two_players_start_a_match_witness :
  exists m,
    fst (run exampleCard (fun c => c) exampleSetup exampleDecks
           (exampleCalls (1 # 4)) []) = [m] /\
    playerTurn m = Some P2 /\
    (phase m = DRAW_STEP \/ phase m = CHARGE_STEP).
Proof.
  destruct (two_players_start_a_match exampleCard (fun c => c) exampleSetup
              exampleDecks
              (exampleEntropy (1 # 4)) (exampleEntropy (1 # 4))
              (exampleEntropy (1 # 4)) (exampleEntropy (1 # 4))
              (exampleEntropy (1 # 4)) "h" "match" ""
              1%nat 2%nat {| uid := "u1" |} {| uid := "u2" |} "d1" "d1"
              _ _ eq_refl eq_refl)
    as (m & E & _ & _ & Ht & Hph).
  exists m. split; [exact E |]. split; [exact Ht | exact Hph].
Defined.

End ServerFacts.

(** * Properties of the card catalog *)

Module GameFacts.
Import Game.

(** ** Looking an instance up *)

Lemma lookupIn_Some iid l c : lookupIn iid l = Some c -> c ∈ l /\ ID c = iid.
Proof.
  unfold lookupIn. intros H. apply List.find_some in H. destruct H as [Hin Hid].
  split; [by apply list_elem_of_In | by apply bool_decide_eq_true in Hid].
Qed.

Lemma lookupIn_None iid l :
  lookupIn iid l = None <-> forall c, c ∈ l -> ID c <> iid.
Proof.
  unfold lookupIn. split.
  - intros H c Hin Hid.
    pose proof (List.find_none _ _ H c (proj1 (list_elem_of_In _ _) Hin)) as Hc.
    simpl in Hc. rewrite bool_decide_eq_true_2 in Hc by exact Hid. discriminate.
  - intros H. destruct (List.find _ l) as [c |] eqn:E; [| reflexivity].
    apply List.find_some in E. destruct E as [Hin Hid].
    apply bool_decide_eq_true in Hid.
    exfalso. exact (H c (proj2 (list_elem_of_In _ _) Hin) Hid).
Qed.

Lemma lookupIn_app iid l1 l2 :
  lookupIn iid (l1 ++ l2) =
    match lookupIn iid l1 with
    | Some c => Some c
    | None => lookupIn iid l2
    end.
Proof.
  unfold lookupIn. induction l1 as [| x l1 IH]; [reflexivity |].
  simpl. destruct (bool_decide (ID x = iid)); [reflexivity | exact IH].
Qed.

Lemma lookupIn_without iid l : lookupIn iid (without iid l) = None.
Proof.
  apply lookupIn_None. intros c Hin Hid. unfold without in Hin.
  apply list_elem_of_In, List.filter_In in Hin. destruct Hin as [_ Hn].
  rewrite bool_decide_eq_true_2 in Hn by exact Hid. discriminate.
Qed.

Lemma update_eq z l zs : update z l zs z = l.
Proof. unfold update. by rewrite decide_True. Qed.

Lemma update_ne z z' l zs : z' <> z -> update z l zs z' = zs z'.
Proof. intros H. unfold update. by rewrite decide_False. Qed.

Lemma findCard_sole iid z c zs : sole iid z c zs -> findCard iid zs = Some c.
Proof.
  intros [H1 H2]. unfold findCard. simpl. rewrite !lookupIn_app.
  destruct z; rewrite ?H1, ?H2 by discriminate; try reflexivity;
   repeat (rewrite ?H1, ?H2 by discriminate; try reflexivity).
Qed.

(** The move puts the instance in [to], and nowhere else. *)
Lemma relocate_sole c from to zs :
  sole (ID c) from c zs ->
  sole (ID c) to (set_Zone to c) (relocate c from to zs).
Proof.
  intros [H1 H2]. unfold relocate. split.
  - rewrite update_eq, lookupIn_app.
    destruct (decide (to = from)) as [-> | Hne].
    + rewrite update_eq, lookupIn_without. simpl.
      by rewrite bool_decide_eq_true_2.
    + rewrite update_ne by exact Hne. rewrite (H2 to Hne). simpl.
      by rewrite bool_decide_eq_true_2.
  - intros z' Hz'. rewrite update_ne by exact Hz'.
    destruct (decide (z' = from)) as [-> | Hne].
    + rewrite update_eq. apply lookupIn_without.
    + rewrite update_ne by exact Hne. exact (H2 z' Hne).
Qed.

Lemma no_zone_hook hs k :
  k = onEnterBattleZone \/ k = onLeaveBattleZone ->
  concat ((fun e => bindings e k) <$> hs) = [].
Proof.
  intros Hk. induction hs as [| e hs IH]; [reflexivity |].
  change (concat ((fun e => bindings e k) <$> e :: hs))
    with (bindings e k ++ concat ((fun e => bindings e k) <$> hs)).
  rewrite IH. destruct Hk as [-> | ->]; destruct e; reflexivity.
Qed.

Lemma dispatch_zone_hook move k iid zs :
  k = onEnterBattleZone \/ k = onLeaveBattleZone ->
  dispatch move k iid zs = Moved zs.
Proof.
  intros Hk. unfold dispatch. destruct (findCard iid zs) as [c |]; [| reflexivity].
  rewrite (no_zone_hook _ _ Hk). reflexivity.
Qed.

Lemma moveCard_moves fuel iid from to zs c :
  lookupIn iid (zs from) = Some c ->
  moveCard (S fuel) iid from to zs = Moved (relocate c from to zs).
Proof.
  intros H. simpl. rewrite H.
  destruct (decide (from = BATTLEZONE)); destruct (decide (to = BATTLEZONE));
    rewrite ?dispatch_zone_hook by auto; reflexivity.
Qed.

Lemma moveCard_invalid fuel iid from to zs :
  lookupIn iid (zs from) = None ->
  moveCard (S fuel) iid from to zs = ValidationError.
Proof. intros H. simpl. rewrite H. reflexivity. Qed.

Lemma after_combat_commands hs :
  Forall (fun cmd => cmd = destroy) (concat ((fun e => bindings e onAfterCombat) <$> hs)) /\
  (Suicide ∈ hs -> concat ((fun e => bindings e onAfterCombat) <$> hs) <> []).
Proof.
  induction hs as [| e hs [IH1 IH2]]; [split; [constructor | intros H; inversion H] |].
  change (concat ((fun e => bindings e onAfterCombat) <$> e :: hs))
    with (bindings e onAfterCombat
            ++ concat ((fun e => bindings e onAfterCombat) <$> hs)).
  split.
  - apply Forall_app. split; [| exact IH1]. destruct e; repeat constructor.
  - intros Hin. destruct e; simpl; try discriminate;
      apply IH2; apply elem_of_cons in Hin; destruct Hin as [? | ?];
      first [discriminate | assumption].
Qed.

Lemma exec_invalid fuel iid cmds zs :
  Forall (fun cmd => cmd = destroy) cmds ->
  lookupIn iid (zs BATTLEZONE) = None ->
  exec (moveCard (S fuel)) iid cmds zs = Moved zs.
Proof.
  intros Hc Hn. induction Hc as [| cmd cmds -> _ IH]; [reflexivity |].
  unfold destroy. cbn [exec]. rewrite (moveCard_invalid _ _ _ _ _ Hn). exact IH.
Qed.

Lemma exec_destroys fuel c cmds zs :
  Forall (fun cmd => cmd = destroy) cmds -> cmds <> [] ->
  sole (ID c) BATTLEZONE c zs ->
  exec (moveCard (S fuel)) (ID c) cmds zs
    = Moved (relocate c BATTLEZONE GRAVEYARD zs).
Proof.
  intros Hc Hne Hs. destruct Hc as [| cmd cmds -> Hc]; [contradiction |].
  unfold destroy. cbn [exec]. rewrite (moveCard_moves _ _ _ _ _ c (proj1 Hs)).
  apply exec_invalid; [exact Hc |].
  apply (relocate_sole c BATTLEZONE GRAVEYARD zs Hs). discriminate.
Qed.

Lemma lookupIn_NoDup l c :
  NoDup (ID <$> l) -> c ∈ l -> lookupIn (ID c) l = Some c.
Proof.
  induction l as [| x l IH]; intros Hnd Hin; [inversion Hin |].
  rewrite fmap_cons in Hnd. apply NoDup_cons in Hnd. destruct Hnd as [Hx Hnd].
  unfold lookupIn. simpl. case_bool_decide as Hid.
  - apply elem_of_cons in Hin. destruct Hin as [-> | Hin]; [reflexivity |].
    exfalso. apply Hx. rewrite Hid. apply list_elem_of_fmap. eauto.
  - apply elem_of_cons in Hin. destruct Hin as [-> | Hin]; [contradiction |].
    apply IH; assumption.
Qed.

Lemma unique_ids_zone zs z : unique_ids zs -> NoDup (ID <$> zs z).
Proof.
  unfold unique_ids, containers. simpl. rewrite !fmap_app, !NoDup_app.
  intros H. destruct z; tauto.
Qed.

Lemma unique_ids_apart zs z z' x y :
  unique_ids zs -> z <> z' -> x ∈ zs z -> y ∈ zs z' -> ID x <> ID y.
Proof.
  unfold unique_ids, containers. simpl. rewrite !fmap_app, !NoDup_app.
  intros H Hne Hx Hy Hid.
  assert (Hx' : ID x ∈ ID <$> zs z) by (apply list_elem_of_fmap; eauto).
  assert (Hy' : ID x ∈ ID <$> zs z') by (rewrite Hid; apply list_elem_of_fmap; eauto).
  destruct z, z'; try contradiction;
    repeat match goal with Hc : _ /\ _ |- _ => destruct Hc end;
    match goal with
    | Hd : forall i, i ∈ ?A -> i ∉ _, Hi : ?i ∈ ?A |- _ =>
        apply (Hd i Hi); rewrite !elem_of_app; tauto
    end.
Qed.

Lemma unique_ids_sole zs from c :
  unique_ids zs -> c ∈ zs from -> sole (ID c) from c zs.
Proof.
  intros Hu Hin. split.
  - apply lookupIn_NoDup; [by apply unique_ids_zone | exact Hin].
  - intros z' Hz'. apply lookupIn_None. intros c' Hin'.
    apply (unique_ids_apart zs z' from c' c Hu Hz' Hin' Hin).
Qed.

(** ** Suicide *)

(** C9. A card instance whose template binds Suicide (Bone Spider, Skeleton
    Soldier, the Defiled), held by a zone of a zone set with unique instance
    ids, is moved to the battle zone, where entering changes nothing more;
    when [onAfterCombat] is then fired for it, its current zone is the
    graveyard, whose container holds it, and no other container does. *)
Theorem suicide_goes_to_graveyard
    (fuel : nat) (zs : Zones) (from : Container) (c : Card) :
  2 <= fuel ->
  unique_ids zs ->
  c ∈ zs from ->
  Suicide ∈ handlers c ->
  exists zs1 zs2 c',
    moveCard fuel (ID c) from BATTLEZONE zs = Moved zs1 /\
    findCard (ID c) zs1 = Some (set_Zone BATTLEZONE c) /\
    fire fuel onAfterCombat (ID c) zs1 = Moved zs2 /\
    findCard (ID c) zs2 = Some c' /\
    Zone c' = GRAVEYARD /\
    c' ∈ zs2 GRAVEYARD /\
    forall z, z <> GRAVEYARD -> lookupIn (ID c) (zs2 z) = None.
Proof.
  intros Hfuel Hu Hin Hs.
  destruct fuel as [| [| fuel]]; [lia | lia |].
  pose proof (unique_ids_sole zs from c Hu Hin) as Hsole.
  pose proof (relocate_sole c from BATTLEZONE zs Hsole) as Hbz.
  set (cb := set_Zone BATTLEZONE c) in *.
  set (zs1 := relocate c from BATTLEZONE zs) in *.
  pose proof (relocate_sole cb BATTLEZONE GRAVEYARD zs1 Hbz) as Hgy.
  exists zs1, (relocate cb BATTLEZONE GRAVEYARD zs1), (set_Zone GRAVEYARD cb).
  split; [apply moveCard_moves, Hsole |].
  split; [apply (findCard_sole _ _ _ _ Hbz) |].
  split.
  - unfold fire, dispatch. rewrite (findCard_sole _ _ _ _ Hbz).
    change (ID c) with (ID cb).
    destruct (after_combat_commands (handlers cb)) as [Hall Hne].
    apply exec_destroys; [exact Hall | apply Hne, Hs | exact Hbz].
  - split; [apply (findCard_sole _ _ _ _ Hgy) |].
    split; [reflexivity |].
    split; [apply (lookupIn_Some (ID cb)), Hgy | exact (proj2 Hgy)].
Qed.

Lemma suicide_goes_to_graveyard_witness :
  (exists zs1 zs2 c',
     moveCard 2 "s1" HAND BATTLEZONE exampleZones = Moved zs1 /\
     findCard "s1" zs1 = Some (set_Zone BATTLEZONE exampleSpider) /\
     fire 2 onAfterCombat "s1" zs1 = Moved zs2 /\
     findCard "s1" zs2 = Some c' /\
     Zone c' = GRAVEYARD /\
     c' ∈ zs2 GRAVEYARD /\
     forall z, z <> GRAVEYARD -> lookupIn "s1" (zs2 z) = None) /\
  (exists zs1 zs2 c',
     moveCard 3 "k1" DECK BATTLEZONE exampleZones = Moved zs1 /\
     findCard "k1" zs1 = Some (set_Zone BATTLEZONE exampleSoldier) /\
     fire 3 onAfterCombat "k1" zs1 = Moved zs2 /\
     findCard "k1" zs2 = Some c' /\
     Zone c' = GRAVEYARD /\
     c' ∈ zs2 GRAVEYARD /\
     forall z, z <> GRAVEYARD -> lookupIn "k1" (zs2 z) = None).
Proof.
  assert (Hu : unique_ids exampleZones).
  { unfold unique_ids. apply (bool_decide_unpack (NoDup _)). reflexivity. }
  split.
  - apply (suicide_goes_to_graveyard 2 exampleZones HAND exampleSpider);
      [lia | exact Hu | left | right; left].
  - apply (suicide_goes_to_graveyard 3 exampleZones DECK exampleSoldier);
      [lia | exact Hu | left | right; left].
Defined.

End GameFacts.
